(** * Stock management: persistence, capacity accounting and retryable fetch

    A shallow embedding of [docs/assets/js/app.js].  The in-memory
    collection, the key-value store and the notifications sent to the page
    are threaded through a state-and-exception monad; the network and the
    timer are a trace of events produced against an oracle that answers the
    successive calls of [fetch].

    Conventions.
    - A JavaScript string is a [string]: one [ascii] per code unit (code
      units 0..255), so [String.length] is the [.length] of the source.
    - Integer-valued numbers are [Z]; the one fractional number of the
      program, the usage percentage, is an exact rational [Q].  Rounding of
      IEEE doubles beyond 2^53 is not represented.
    - [console.warn] / [console.error] output and the CSS-class bookkeeping
      of the page are not part of the state. *)

From Stdlib Require Import ZArith QArith Qround Lia Ascii String DecimalString.
From stdpp Require Import base list strings.

Local Open Scope Z_scope.
Local Open Scope string_scope.
Local Open Scope list_scope.
Local Set Warnings "-register-all".

(** ** JavaScript values and built-ins used by the program *)

Module JS.

(** An exception value: [error.name], [error.message], [error.code]
    ([code] is [undefined] for anything but a DOMException). *)
Record Error := mkError {
  err_name : string;
  err_message : string;
  err_code : option Z
}.

(** [new Error(msg)] *)
Definition new_Error (msg : string) : Error :=
  {| err_name := "Error"; err_message := msg; err_code := None |}.

(** Values: what [JSON.parse] can produce, plus [undefined]. *)
Inductive Value :=
| VUndefined
| VNull
| VBool (b : bool)
| VNum (q : Q)
| VStr (s : string)
| VArr (elems : list Value)
| VObj (fields : list (string * Value)).

(** [Array.isArray(v)] *)
Definition Array_isArray (v : Value) : bool :=
  match v with VArr _ => true | _ => false end.

(** The elements of an array value. *)
Definition elements (v : Value) : list Value :=
  match v with VArr elems => elems | _ => [] end.

(** Template-literal rendering of a non-negative integer. *)
Definition show_nat (n : nat) : string :=
  NilEmpty.string_of_uint (Nat.to_uint n).

(** White space of [String.prototype.trim] and of [parseInt] among the
    code units 0..255: TAB, LF, VT, FF, CR, SP, NBSP. *)
Definition is_ws (a : ascii) : bool :=
  let n := nat_of_ascii a in
  (Nat.leb 9 n && Nat.leb n 13) || Nat.eqb n 32 || Nat.eqb n 160.

Fixpoint trimStart (s : string) : string :=
  match s with
  | String a s' => if is_ws a then trimStart s' else s
  | EmptyString => EmptyString
  end.

Fixpoint trimEnd (s : string) : string :=
  match s with
  | String a s' =>
      match trimEnd s' with
      | EmptyString => if is_ws a then EmptyString else String a EmptyString
      | t => String a t
      end
  | EmptyString => EmptyString
  end.

Definition trim (s : string) : string := trimEnd (trimStart s).

Definition digit_of (a : ascii) : option Z :=
  let n := nat_of_ascii a in
  if Nat.leb 48 n && Nat.leb n 57 then Some (Z.of_nat n - 48) else None.

(** Longest prefix of decimal digits; [None] when it is empty. *)
Fixpoint parse_digits (s : string) (acc : option Z) : option Z :=
  match s with
  | String a s' =>
      match digit_of a with
      | Some d => parse_digits s' (Some (10 * default 0 acc + d))
      | None => acc
      end
  | EmptyString => acc
  end.

(** [parseInt(s, 10)]; [None] is [NaN]. *)
Definition parseInt (s : string) : option Z :=
  let s1 := trimStart s in
  let '(sign, s2) :=
    match s1 with
    | String "-" r => (-1, r)
    | String "+" r => (1, r)
    | _ => (1, s1)
    end in
  (fun n => sign * n) <$> parse_digits s2 None.

Fixpoint starts_with (p s : string) : bool :=
  match p, s with
  | EmptyString, _ => true
  | String a p', String b s' => if Ascii.eqb a b then starts_with p' s' else false
  | String _ _, EmptyString => false
  end.

(** [s.includes(p)] *)
Fixpoint includes (s p : string) : bool :=
  starts_with p s ||
  match s with
  | String _ s' => includes s' p
  | EmptyString => false
  end.

(** The double nearest to an integer, ties to even.  Below 2^53 in
    magnitude every integer is a double; a larger one keeps its 53 leading
    bits. *)
Definition round_double (z : Z) : Z :=
  let m := Z.abs z in
  if Z.ltb m (2 ^ 53) then z
  else
    let ulp := 2 ^ (Z.log2 m - 52) in
    let q := m / ulp in
    let r := m mod ulp in
    let q' :=
      if Z.ltb (2 * r) ulp then q
      else if Z.ltb ulp (2 * r) then q + 1
      else if Z.even q then q else q + 1 in
    Z.sgn z * (q' * ulp).

(** [a + b] on integer-valued doubles: the exact sum, rounded.  This is the
    source's sum whenever that is finite, that is, below 2^1024; a sum that
    rounds to 2^1024 or more is [Infinity] in the source, which an integer
    quantity cannot hold, so what is stated of a sum below is stated of a
    finite one. *)
Definition add (a b : Z) : Z := round_double (a + b).

End JS.

(** ** Constants *)

Definition MAX_LOCALSTORAGE_SIZE : Z := 5 * 1024 * 1024.
Definition STORAGE_KEY : string := "stockInventory".
Definition MAX_RETRIES : nat := 3.

(** ** Retryable fetch *)

Record Response := mkResponse {
  ok : bool;
  status : nat;
  body : JS.Value
}.

(** How one call of [fetch(url, options)] settles. *)
Inductive FetchOutcome :=
| FetchRejected (e : JS.Error)
| FetchResolved (r : Response).

(** What the environment observes of a call: each request issued (with its
    0-based attempt index) and each timer armed (in milliseconds). *)
Inductive NetEvent :=
| Attempt (k : nat)
| Wait (ms : Z).

(** How a call of an async function settles. *)
Inductive Outcome (A : Type) :=
| Ret (a : A)
| Throw (e : JS.Error).
Arguments Ret {A} a.
Arguments Throw {A} e.

(** [Math.min(Math.pow(2, attempt) * 100, 2000)] *)
Definition backoff_delay (attempt : nat) : Z :=
  Z.min (2 ^ Z.of_nat attempt * 100) 2000.

(** The body of the [try] block of one iteration. *)
Definition try_fetch (o : FetchOutcome) : Outcome Response :=
  match o with
  | FetchRejected e => Throw e
  | FetchResolved response =>
      if negb (ok response)
      then Throw (JS.new_Error ("HTTP error! Status: " +:+ JS.show_nat (status response)))
      else Ret response
  end.

(** The [for] loop of [fetchWithRetry], entered at index [attempt] with
    [remaining = maxRetries - attempt] iterations left, followed by the
    final [throw]. *)
Fixpoint retry_loop (fetch : nat -> FetchOutcome) (maxRetries : nat)
    (remaining attempt : nat) (lastError : option JS.Error)
    : list NetEvent * Outcome Response :=
  match remaining with
  | O =>
      ([], Throw (JS.new_Error
             ("Failed after " +:+ JS.show_nat maxRetries +:+ " attempts: " +:+
              match lastError with
              | Some e => JS.err_message e
              | None => "Unknown error"
              end)))
  | S remaining' =>
      match try_fetch (fetch attempt) with
      | Ret response => ([Attempt attempt], Ret response)
      | Throw error =>
          let delay := backoff_delay attempt in
          let '(tr, res) :=
            retry_loop fetch maxRetries remaining' (S attempt) (Some error) in
          (Attempt attempt :: Wait delay :: tr, res)
      end
  end.

(** [fetchWithRetry(url, options, maxRetries)]; [fetch k] is how the
    [k]-th call of [fetch(url, options)] settles.  A caller that leaves
    [maxRetries] out gets [MAX_RETRIES]. *)
Definition fetchWithRetry (fetch : nat -> FetchOutcome) (maxRetries : nat)
    : list NetEvent * Outcome Response :=
  retry_loop fetch maxRetries maxRetries 0 None.

(** The timers armed by a run, in order. *)
Definition waits (tr : list NetEvent) : list Z :=
  omap (fun ev => match ev with Wait ms => Some ms | Attempt _ => None end) tr.

(** ** Data model *)

(** An item record.  [image] is [null] or a data URL. *)
Record Item := mkItem {
  id : string;
  name : string;
  quantity : Z;
  image : option string;
  createdAt : string
}.

(** [item.quantity = q] *)
Definition set_quantity (q : Z) (item : Item) : Item :=
  {| id := id item; name := name item; quantity := q;
     image := image item; createdAt := createdAt item |}.

(** ** The page (UI collaborator) *)

(** The [type] argument of [showToast]: 'success', 'error', 'warning', 'info'. *)
Inductive Severity := SevSuccess | SevError | SevWarning | SevInfo.

Inductive StatusTone := green | yellow | red.
Inductive BarColor := bar_blue | bar_yellow | bar_red.

(** The callback handed to [showConfirmModal]; it runs only if the user
    presses Confirm.  The body of the import callback stores arbitrary
    parsed values in the collection and is kept as the parsed array. *)
Inductive Callback :=
| CbDeleteItem (target : string)
| CbClearInventory
| CbImportItems (importedData : list JS.Value).

(** What the program asks the page to show, in order. *)
Inductive UIEvent :=
| Toast (message : string) (type : Severity)
| StorageStatus (tone : StatusTone) (text : string)
| StorageInfoHidden
| StorageInfoShown (used quota : Z) (barWidth : Q) (bar : BarColor)
| InventoryShown (items : list Item)
| QuantityShown (target : string) (newQuantity : Z)
| ItemHighlighted (target : string)
| LoadingShown
| LoadingHidden
| FormReset
| ConfirmModal (title message : string) (onConfirm : Callback).

(** ** Program state *)

(** The module-level variables [inventory] and [storageAvailable], the
    contents of [localStorage] in key order ([localStorage.key(i)]), and
    the log of what the page was asked to show. *)
Record State := mkState {
  inventory : list Item;
  storageAvailable : bool;
  localStorage : list (string * string);
  page : list UIEvent
}.

Definition set_inventory (inv : list Item) (s : State) : State :=
  {| inventory := inv; storageAvailable := storageAvailable s;
     localStorage := localStorage s; page := page s |}.

Definition set_localStorage (ls : list (string * string)) (s : State) : State :=
  {| inventory := inventory s; storageAvailable := storageAvailable s;
     localStorage := ls; page := page s |}.

Definition log (ev : UIEvent) (s : State) : State :=
  {| inventory := inventory s; storageAvailable := storageAvailable s;
     localStorage := localStorage s; page := page s ++ [ev] |}.

(** ** State and exception monad *)

Definition M (A : Type) : Type := State -> Outcome A * State.

Definition ret {A} (a : A) : M A := fun s => (Ret a, s).
Definition throw {A} (e : JS.Error) : M A := fun s => (Throw e, s).
Definition bind {A B} (m : M A) (k : A -> M B) : M B :=
  fun s =>
    match m s with
    | (Ret a, s') => k a s'
    | (Throw e, s') => (Throw e, s')
    end.

(** [try { m } catch (error) { h error }]: what [m] did to the state
    before throwing stays done. *)
Definition try_catch {A} (m : M A) (h : JS.Error -> M A) : M A :=
  fun s =>
    match m s with
    | (Ret a, s') => (Ret a, s')
    | (Throw e, s') => h e s'
    end.

Definition gets {A} (f : State -> A) : M A := fun s => (Ret (f s), s).
Definition modify (f : State -> State) : M unit := fun s => (Ret tt, f s).
Definition settle {A} (o : Outcome A) : M A := fun s => (o, s).
Definition notify (ev : UIEvent) : M unit := modify (log ev).

#[global] Instance M_ret : MRet M := @ret.
#[global] Instance M_bind : MBind M := fun A B k m => bind m k.

(** The state a computation ends in, and how it settles. *)
Definition exec {A} (m : M A) (s : State) : State := snd (m s).
Definition result {A} (m : M A) (s : State) : Outcome A := fst (m s).

(** ** What the browser provides *)

(** [JSON.stringify] and [JSON.parse]; when [localStorage.setItem]
    refuses a write: [setItem_fault ls key value] is the exception it
    throws on store contents [ls], if any; and the two look-ups of
    [updateItemQuantity] in the document:
    [quantity_element s id] is how
    [document.querySelector(`#item-${id} .item-quantity`)] ends in state
    [s] (an element found, [null], or the SyntaxError thrown for an id that
    does not make a valid selector), and [item_element s id] is whether
    [document.getElementById(`item-${id}`)] finds an element. *)
Record Platform := mkPlatform {
  JSON_stringify : list Item -> string;
  JSON_parse : string -> Outcome JS.Value;
  setItem_fault : list (string * string) -> string -> string -> option JS.Error;
  quantity_element : State -> string -> Outcome bool;
  item_element : State -> string -> bool
}.

(** A successful [setItem]: overwrite in place, or append a new key. *)
Fixpoint store_put (key value : string) (ls : list (string * string))
    : list (string * string) :=
  match ls with
  | [] => [(key, value)]
  | (k, v) :: ls' =>
      if String.eqb k key then (k, value) :: ls' else (k, v) :: store_put key value ls'
  end.

(** [array.findIndex(p)]; [None] is [-1]. *)
Fixpoint findIndex {A} (p : A -> bool) (l : list A) : option nat :=
  match l with
  | [] => None
  | x :: l' => if p x then Some O else S <$> findIndex p l'
  end.

(** [a || b] on an optional string: [null] and the empty string are falsy. *)
Definition or_else (a : option string) (b : string) : string :=
  match a with
  | Some (String c r) => String c r
  | _ => b
  end.

(** ** Capacity monitor *)

Record StorageInfo := mkStorageInfo {
  used : Z;
  quota : Z;
  percentage : Q
}.

(** The accumulation loop of [getStorageInfo]. *)
Definition used_bytes (ls : list (string * string)) : Z :=
  fold_left
    (fun used '(key, value) =>
       used + (Z.of_nat (String.length key) + Z.of_nat (String.length value)) * 2)
    ls 0.

Definition getStorageInfo (s : State) : StorageInfo :=
  if negb (storageAvailable s) then {| used := 0; quota := 0; percentage := 0%Q |}
  else
    let used := used_bytes (localStorage s) in
    {| used := used;
       quota := MAX_LOCALSTORAGE_SIZE;
       percentage := (inject_Z used / inject_Z MAX_LOCALSTORAGE_SIZE * 100)%Q |}.

(** [a > b] on rationals. *)
Definition Qgtb (a b : Q) : bool := negb (Qle_bool a b).

Definition showToast (message : string) (type : Severity) : M unit :=
  notify (Toast message type).

Definition low_storage_warning : string :=
  "Warning: Running low on storage space. Consider exporting and clearing data.".

(** [updateStorageInfo]; the event carries the raw figures (the source
    formats them as text) and the width of the bar, capped at 100. *)
Definition updateStorageInfo : M unit :=
  available ← gets storageAvailable;
  if negb available then notify StorageInfoHidden
  else
    info ← gets getStorageInfo;
    notify (StorageInfoShown (used info) (quota info)
              (if Qgtb (percentage info) 100 then 100%Q else percentage info)
              (if Qgtb (percentage info) 90 then bar_red
               else if Qgtb (percentage info) 70 then bar_yellow
               else bar_blue));;
    if Qgtb (percentage info) 85
    then showToast low_storage_warning SevWarning
    else mret tt.

(** [showStorageStatus]; the timer that restores the default text two
    seconds after a temporary message is not represented. *)
Definition showStorageStatus (isAvailable : bool) (message : option string) : M unit :=
  if isAvailable
  then notify (StorageStatus green (or_else message "Data will be saved automatically"))
  else
    notify (StorageStatus
              (match message with
               | Some m => if JS.includes m "quota" then red else yellow
               | None => yellow
               end)
              (or_else message "Storage unavailable - data will not be saved between sessions")).

Definition updateInventoryDisplay : M unit :=
  inv ← gets inventory;
  notify (InventoryShown inv).

Definition showConfirmModal (title message : string) (onConfirm : Callback) : M unit :=
  notify (ConfirmModal title message onConfirm).

(** ** Durable store adapter and collection store *)

Section Store.

Variable P : Platform.

(** [localStorage.setItem(key, value)] *)
Definition localStorage_setItem (key value : string) : M unit :=
  fun s =>
    match setItem_fault P (localStorage s) key value with
    | Some e => (Throw e, s)
    | None => (Ret tt, set_localStorage (store_put key value (localStorage s)) s)
    end.

(** [error.name === 'QuotaExceededError' || error.code === 22] *)
Definition is_quota_error (e : JS.Error) : bool :=
  String.eqb (JS.err_name e) "QuotaExceededError" ||
  match JS.err_code e with
  | Some c => Z.eqb c 22
  | None => false
  end.

Definition saveInventory : M unit :=
  available ← gets storageAvailable;
  if available : bool then
    try_catch
      (inv ← gets inventory;
       localStorage_setItem STORAGE_KEY (JSON_stringify P inv);;
       showStorageStatus true (Some "Data saved");;
       updateStorageInfo)
      (fun e =>
         if is_quota_error e then
           showStorageStatus false (Some "Storage quota exceeded");;
           showToast "Storage quota exceeded. Try removing some items or images." SevError
         else
           showStorageStatus false (Some "Error saving data"))
  else mret tt.

(** [document.querySelector(`#item-${id} .item-quantity`)] *)
Definition querySelector_quantity (target : string) : M bool :=
  fun s => (quantity_element P s target, s).

(** [updateItemQuantity(id, change)]; like the source it has no [return]
    statement, so the call evaluates to [undefined].  The quantity is
    written first; the look-up of the quantity element comes next and may
    throw; the save comes last. *)
Definition updateItemQuantity (target : string) (change : Z) : M JS.Value :=
  inv ← gets inventory;
  match findIndex (fun item => String.eqb (id item) target) inv with
  | Some index =>
      match inv !! index with
      | Some item =>
          let newQuantity := Z.max 0 (JS.add (quantity item) change) in
          modify (set_inventory (<[index := set_quantity newQuantity item]> inv));;
          quantityElement ← querySelector_quantity target;
          (if quantityElement : bool
           then notify (QuantityShown target newQuantity) else mret tt);;
          (if Z.eqb newQuantity 0 then
             itemElement ← gets (fun s => item_element P s target);
             if itemElement : bool
             then notify (ItemHighlighted target) else mret tt
           else mret tt);;
          saveInventory;;
          mret JS.VUndefined
      | None =>
          throw {| JS.err_name := "TypeError";
                   JS.err_message := "Cannot read properties of undefined";
                   JS.err_code := None |}
      end
  | None => mret JS.VUndefined
  end.

(** [deleteItem(id)]; [splice(index, 1)] is [delete index].  No [return]
    statement either. *)
Definition deleteItem (target : string) : M JS.Value :=
  inv ← gets inventory;
  match findIndex (fun item => String.eqb (id item) target) inv with
  | Some index =>
      modify (set_inventory (delete index inv));;
      saveInventory;;
      updateInventoryDisplay;;
      showToast "Item deleted" SevInfo;;
      mret JS.VUndefined
  | None => mret JS.VUndefined
  end.

(** The submit handler of the add-item form together with the settling of
    [processImage]: [nameValue] and [quantityValue] are the two input
    fields, [processed] is how [processImage(file)] settles, [newId] is the
    value of [generateId()] and [now] of [new Date().toISOString()]. *)
Definition addItem (nameValue quantityValue : string)
    (processed : Outcome (option string)) (newId now : string) : M unit :=
  let name := JS.trim nameValue in
  match name, JS.parseInt quantityValue with
  | EmptyString, _ => mret tt
  | _, None => mret tt
  | String _ _, Some quantity =>
      notify LoadingShown;;
      try_catch
        (imageData ← settle processed;
         let newItem :=
           {| id := newId; name := name; quantity := quantity;
              image := imageData; createdAt := now |} in
         modify (fun s => set_inventory (inventory s ++ [newItem]) s);;
         saveInventory;;
         updateInventoryDisplay;;
         notify FormReset;;
         notify LoadingHidden;;
         showToast "Item added successfully" SevSuccess)
        (fun e =>
           notify LoadingHidden;;
           showToast ("Error adding item: " +:+ JS.err_message e) SevError)
  end.

Definition clearInventory : M unit :=
  modify (set_inventory []);;
  saveInventory;;
  updateInventoryDisplay;;
  showToast "All inventory data cleared" SevInfo.

(** How the [FileReader] of [importInventory] ends. *)
Inductive FileRead :=
| ReadLoaded (text : string)
| ReadFailed.

(** [reader.onload] of [importInventory] *)
Definition importInventory_onload (text : string) : M unit :=
  try_catch
    (importedData ← settle (JSON_parse P text);
     if negb (JS.Array_isArray importedData)
     then throw (JS.new_Error "Invalid inventory data format")
     else
       showConfirmModal "Import Inventory"
         ("This will add " +:+ JS.show_nat (length (JS.elements importedData)) +:+
          " items to your inventory. Continue?")
         (CbImportItems (JS.elements importedData)))
    (fun e =>
       showToast ("Error importing inventory data: " +:+ JS.err_message e) SevError).

(** [importInventory(event)]; [file] is [event.target.files[0]] with the
    way its read ends. *)
Definition importInventory (file : option FileRead) : M unit :=
  match file with
  | None => mret tt
  | Some (ReadLoaded text) => importInventory_onload text
  | Some ReadFailed => showToast "Error reading file" SevError
  end.

(** ** Sequences of collection operations *)

Inductive Op :=
| OpAdd (nameValue quantityValue : string) (processed : Outcome (option string))
        (newId now : string)
| OpAdjust (target : string) (change : Z)
| OpRemove (target : string).

Definition step (op : Op) : M unit :=
  match op with
  | OpAdd nameValue quantityValue processed newId now =>
      addItem nameValue quantityValue processed newId now
  | OpAdjust target change => updateItemQuantity target change;; mret tt
  | OpRemove target => deleteItem target;; mret tt
  end.

(** The operations run one after the other, each as an event handler of
    its own: an exception that escapes a handler is reported by the browser
    and dropped, what the handler did before stays done, and the next
    handler runs. *)
Fixpoint run (ops : list Op) : M unit :=
  match ops with
  | [] => mret tt
  | op :: ops' => try_catch (step op) (fun _ => mret tt);; run ops'
  end.

End Store.

(** ** Observations on traces and sample inputs *)

(** The timer armed immediately before request [k] is issued, if any. *)
Fixpoint delay_before (k : nat) (tr : list NetEvent) : option Z :=
  match tr with
  | Wait ms :: ((Attempt j :: _) as tr') =>
      if Nat.eqb j k then Some ms else delay_before k tr'
  | _ :: tr' => delay_before k tr'
  | [] => None
  end.

Definition down : FetchOutcome :=
  FetchRejected (JS.new_Error "Failed to fetch").
Definition up : Response := {| ok := true; status := 200; body := JS.VNull |}.

(** An endpoint that fails twice and then succeeds. *)
Definition flaky (k : nat) : FetchOutcome :=
  if Nat.ltb k 2 then down else FetchResolved up.

(** A sample browser for the examples.  Its [JSON.stringify] prints the
    fields in the order of the object literal of the add handler and is
    exact for text that needs no escaping; its [JSON.parse] reads the
    literal documents only; its [setItem] refuses a write that would take
    the store past [capacity] bytes. *)
Definition dquote : string := String (ascii_of_nat 34) EmptyString.

Definition show_Z (z : Z) : string :=
  if Z.ltb z 0 then "-" +:+ JS.show_nat (Z.abs_nat z) else JS.show_nat (Z.to_nat z).

Definition json_string (s : string) : string := dquote +:+ s +:+ dquote.

Definition json_item (item : Item) : string :=
  "{" +:+ json_string "id" +:+ ":" +:+ json_string (id item) +:+ "," +:+
  json_string "name" +:+ ":" +:+ json_string (name item) +:+ "," +:+
  json_string "quantity" +:+ ":" +:+ show_Z (quantity item) +:+ "," +:+
  json_string "image" +:+ ":" +:+
    match image item with Some d => json_string d | None => "null" end +:+ "," +:+
  json_string "createdAt" +:+ ":" +:+ json_string (createdAt item) +:+ "}".

Definition json_items (inv : list Item) : string :=
  "[" +:+ String.concat "," (map json_item inv) +:+ "]".

Definition quota_exceeded : JS.Error :=
  {| JS.err_name := "QuotaExceededError";
     JS.err_message := "The quota has been exceeded.";
     JS.err_code := Some 22 |}.

Definition literal_parse (text : string) : Outcome JS.Value :=
  if String.eqb text "[]" then Ret (JS.VArr [])
  else if String.eqb text "{}" then Ret (JS.VObj [])
  else if String.eqb text "null" then Ret JS.VNull
  else if String.eqb text "true" then Ret (JS.VBool true)
  else if String.eqb text "false" then Ret (JS.VBool false)
  else Throw {| JS.err_name := "SyntaxError";
                JS.err_message := "Unexpected token";
                JS.err_code := None |}.

(** A sample page.  The selector [#item-<id> .item-quantity] is rejected
    when a digit follows a space in the id (as in [#item-k 1
    .item-quantity]); otherwise the elements of an id are found when the
    collection holds an item of that id. *)
Fixpoint digit_after_space (s : string) : bool :=
  match s with
  | String " " ((String c _) as s') =>
      match JS.digit_of c with
      | Some _ => true
      | None => digit_after_space s'
      end
  | String _ s' => digit_after_space s'
  | EmptyString => false
  end.

Definition selector_error : JS.Error :=
  {| JS.err_name := "SyntaxError";
     JS.err_message := "The selector is not valid";
     JS.err_code := Some 12 |}.

Definition has_item (s : State) (target : string) : bool :=
  existsb (fun item => String.eqb (id item) target) (inventory s).

Definition sample_quantity_element (s : State) (target : string) : Outcome bool :=
  if digit_after_space target then Throw selector_error
  else Ret (has_item s target).

Definition sample_browser (capacity : Z) : Platform :=
  {| JSON_stringify := json_items;
     JSON_parse := literal_parse;
     setItem_fault := fun ls key value =>
       if Z.ltb capacity (used_bytes (store_put key value ls))
       then Some quota_exceeded else None;
     quantity_element := sample_quantity_element;
     item_element := has_item |}.

(** The state at page load, before [loadInventory] has run, over store
    contents [ls]; and the same once the availability probe has passed. *)
Definition initial (ls : list (string * string)) : State :=
  {| inventory := []; storageAvailable := false; localStorage := ls; page := [] |}.

Definition ready (ls : list (string * string)) : State :=
  {| inventory := []; storageAvailable := true; localStorage := ls; page := [] |}.

Definition widget (q : Z) : Item :=
  {| id := "k1"; name := "Widget"; quantity := q; image := None;
     createdAt := "2024-01-01T00:00:00.000Z" |}.

Definition gadget (q : Z) : Item :=
  {| id := "k2"; name := "Gadget"; quantity := q; image := None;
     createdAt := "2024-01-02T00:00:00.000Z" |}.

(** The byte accounting in the words of the specification: the sum over
    every persisted key of key length plus value length, at two bytes per
    character. *)
Definition spec_usedBytes (ls : list (string * string)) : Z :=
  2 * foldr Z.add 0
        (map (fun kv => Z.of_nat (String.length kv.1) + Z.of_nat (String.length kv.2)) ls).

(** A text of [p] characters. *)
Definition filler (p : positive) : string :=
  Pos.iter (String "x") EmptyString p.

(** A state holding [items], the store available and empty. *)
Definition stocked (items : list Item) : State :=
  {| inventory := items; storageAvailable := true; localStorage := []; page := [] |}.

(** Every quantity of the collection is non-negative. *)
Definition nonneg (items : list Item) : Prop :=
  Forall (fun item => 0 <= quantity item) items.

(** No add of the sequence carries a quantity field that parses to a
    negative number. *)
Definition adds_nonneg (ops : list Op) : Prop :=
  Forall (fun op =>
            match op with
            | OpAdd _ quantityValue _ _ _ =>
                forall q, JS.parseInt quantityValue = Some q -> 0 <= q
            | _ => True
            end) ops.

(** A notification that is the low-storage warning. *)
Definition is_low_storage_warning (ev : UIEvent) : bool :=
  match ev with
  | Toast message SevWarning => String.eqb message low_storage_warning
  | _ => false
  end.

Definition warnings (evs : list UIEvent) : nat :=
  length (filter (fun ev => is_low_storage_warning ev = true) evs).

(** ** The rest of the program: store access, start-up, images, sync, export *)

Definition MAX_IMAGE_DIMENSION : Z := 800.

(** [localStorage.getItem(key)]; [None] is [null]. *)
Fixpoint store_get (key : string) (ls : list (string * string)) : option string :=
  match ls with
  | [] => None
  | (k, v) :: ls' => if String.eqb k key then Some v else store_get key ls'
  end.

(** [localStorage.removeItem(key)] *)
Fixpoint store_remove (key : string) (ls : list (string * string))
    : list (string * string) :=
  match ls with
  | [] => []
  | (k, v) :: ls' => if String.eqb k key then ls' else (k, v) :: store_remove key ls'
  end.

(** The keys of a store are pairwise distinct. *)
Definition store_wf (ls : list (string * string)) : Prop := NoDup (map fst ls).

Definition set_storageAvailable (b : bool) (s : State) : State :=
  {| inventory := inventory s; storageAvailable := b;
     localStorage := localStorage s; page := page s |}.

(** [Math.round(q)]: the nearest integer, halves upwards. *)
Definition Math_round (q : Q) : Z := Qfloor (q + (1 # 2)).

(** The size the canvas gets in [img.onload] of [processImage], from the
    natural size of the image.  The quotient is exact here; the doubles of
    the source round to the same integer for sides below 2^32. *)
Definition resize (width height : Z) : Z * Z :=
  if Z.ltb MAX_IMAGE_DIMENSION width || Z.ltb MAX_IMAGE_DIMENSION height then
    if Z.ltb height width then
      (MAX_IMAGE_DIMENSION,
       Math_round (inject_Z (height * MAX_IMAGE_DIMENSION) / inject_Z width))
    else
      (Math_round (inject_Z (width * MAX_IMAGE_DIMENSION) / inject_Z height),
       MAX_IMAGE_DIMENSION)
  else (width, height).

(** [s.indexOf(c)] from position [i]; -1 when [c] does not occur. *)
Fixpoint indexOf_from (c : ascii) (s : string) (i : Z) : Z :=
  match s with
  | String a s' => if Ascii.eqb a c then i else indexOf_from c s' (i + 1)
  | EmptyString => -1
  end.

(** [Math.round((dataUrl.length * 3) / 4) - (dataUrl.indexOf(',') + 1)] *)
Definition approximateSize (dataUrl : string) : Z :=
  Math_round (inject_Z (Z.of_nat (String.length dataUrl) * 3) / 4)
  - (indexOf_from "," dataUrl 0 + 1).

(** A file picked in the form: [file.type], whether the [FileReader] ends in
    [onerror], the natural size of the decoded image ([None]: [img.onerror]),
    and the JPEG data URL the canvas gives for a drawing size. *)
Record ImageFile := mkImageFile {
  file_type : string;
  read_fails : bool;
  natural_size : option (Z * Z);
  toDataURL : Z -> Z -> string
}.

Definition large_image_warning : string :=
  "Image compressed but still large. Storage may be limited.".

(** [processImage(file)]: a rejection is a throw. *)
Definition processImage (file : option ImageFile) : M (option string) :=
  match file with
  | None => mret None
  | Some f =>
      if negb (JS.starts_with "image/" (file_type f))
      then throw (JS.new_Error "Please select a valid image file")
      else if read_fails f then throw (JS.new_Error "Error reading file")
      else
        match natural_size f with
        | None => throw (JS.new_Error "Error loading image")
        | Some (width, height) =>
            let '(width', height') := resize width height in
            let dataUrl := toDataURL f width' height' in
            (if Z.ltb (1024 * 1024) (approximateSize dataUrl)
             then showToast large_image_warning SevWarning
             else mret tt);;
            mret (Some dataUrl)
        end
  end.

(** [s.split('T')[0]] *)
Fixpoint before_T (s : string) : string :=
  match s with
  | String a s' => if Ascii.eqb a "T" then EmptyString else String a (before_T s')
  | EmptyString => EmptyString
  end.

(** The request [syncWithCloud] hands to [fetch]. *)
Record Request := mkRequest {
  req_url : string;
  req_method : string;
  req_content_type : string;
  req_body : string
}.

(** The link [exportInventory] clicks. *)
Record Download := mkDownload {
  href : string;
  download : string
}.

(** What else the browser provides: how the [k]-th call of [fetch] with a
    given request settles, how [response.json()] settles, the text
    [new Error(v)] gives a value as message, the TypeError thrown on reading
    a property of [null] or [undefined], [JSON.stringify(_, null, 2)] and
    [encodeURIComponent]. *)
Record Engine := mkEngine {
  fetch_calls : Request -> nat -> FetchOutcome;
  response_json : Response -> Outcome JS.Value;
  String_of : JS.Value -> string;
  null_property : JS.Error;
  JSON_stringify_pretty : list Item -> string;
  encodeURIComponent : string -> string
}.

(** Truthiness of a value. *)
Definition truthy (v : JS.Value) : bool :=
  match v with
  | JS.VUndefined | JS.VNull => false
  | JS.VBool b => b
  | JS.VNum q => negb (Qeq_bool q 0)
  | JS.VStr EmptyString => false
  | JS.VStr (String _ _) => true
  | JS.VArr _ | JS.VObj _ => true
  end.

Fixpoint field (key : string) (fields : list (string * JS.Value)) : JS.Value :=
  match fields with
  | [] => JS.VUndefined
  | (k, v) :: fields' => if String.eqb k key then v else field key fields'
  end.

(** The typed view of a parsed value: an item as the add handler builds
    it. *)
Definition as_item (v : JS.Value) : option Item :=
  match v with
  | JS.VObj [(k1, JS.VStr i); (k2, JS.VStr n); (k3, JS.VNum q); (k4, img); (k5, JS.VStr c)] =>
      if String.eqb k1 "id" && String.eqb k2 "name" && String.eqb k3 "quantity" &&
         String.eqb k4 "image" && String.eqb k5 "createdAt" &&
         Pos.eqb (Qden q) 1
      then
        match img with
        | JS.VNull => Some (mkItem i n (Qnum q) None c)
        | JS.VStr d => Some (mkItem i n (Qnum q) (Some d) c)
        | _ => None
        end
      else None
  | _ => None
  end.

Definition as_items (v : JS.Value) : option (list Item) :=
  match v with
  | JS.VArr elems => mapM as_item elems
  | _ => None
  end.

(** The value a typed item is. *)
Definition value_of_item (item : Item) : JS.Value :=
  JS.VObj [("id", JS.VStr (id item)); ("name", JS.VStr (name item));
           ("quantity", JS.VNum (inject_Z (quantity item)));
           ("image", match image item with Some d => JS.VStr d | None => JS.VNull end);
           ("createdAt", JS.VStr (createdAt item))].

(** How [loadInventory] ends: normally, or on a stored value that is not a
    collection of items; the source assigns such a value to [inventory] all
    the same, which the typed state cannot follow, so the run stops there. *)
Inductive Loaded :=
| LoadDone
| LoadUntyped (v : JS.Value).

Section Program.

Variable P : Platform.
Variable E : Engine.

Definition localStorage_removeItem (key : string) : M unit :=
  modify (fun s => set_localStorage (store_remove key (localStorage s)) s).

Definition checkStorageAvailability : M bool :=
  try_catch
    (let testKey := "__storage_test__" in
     localStorage_setItem P testKey testKey;;
     localStorage_removeItem testKey;;
     mret true)
    (fun _ => mret false).

Definition loadInventory : M Loaded :=
  available ← checkStorageAvailability;
  modify (set_storageAvailable available);;
  loaded ←
    (if available : bool then
       try_catch
         (storedInventory ← gets (fun s => store_get STORAGE_KEY (localStorage s));
          match storedInventory with
          | Some (String c r) =>
              parsed ← settle (JSON_parse P (String c r));
              match as_items parsed with
              | Some items =>
                  modify (set_inventory items);;
                  showStorageStatus true None;;
                  mret LoadDone
              | None => mret (LoadUntyped parsed)
              end
          | _ => showStorageStatus true None;; mret LoadDone
          end)
         (fun _ => showStorageStatus false (Some "Error loading data");; mret LoadDone)
     else showStorageStatus false None;; mret LoadDone);
  match loaded with
  | LoadDone => updateInventoryDisplay;; mret LoadDone
  | LoadUntyped v => mret (LoadUntyped v)
  end.

(** The submit handler of the add-item form with [processImage] run on the
    picked file. *)
Definition submitAddItem (nameValue quantityValue : string)
    (file : option ImageFile) (newId now : string) : M unit :=
  let name := JS.trim nameValue in
  match name, JS.parseInt quantityValue with
  | EmptyString, _ => mret tt
  | _, None => mret tt
  | String _ _, Some quantity =>
      notify LoadingShown;;
      try_catch
        (imageData ← processImage file;
         let newItem :=
           {| id := newId; name := name; quantity := quantity;
              image := imageData; createdAt := now |} in
         modify (fun s => set_inventory (inventory s ++ [newItem]) s);;
         saveInventory P;;
         updateInventoryDisplay;;
         notify FormReset;;
         notify LoadingHidden;;
         showToast "Item added successfully" SevSuccess)
        (fun e =>
           notify LoadingHidden;;
           showToast ("Error adding item: " +:+ JS.err_message e) SevError)
  end.

(** [data.success], [data.message]: neither a string, a number, a boolean
    nor an array has a property of these names. *)
Definition get_property (data : JS.Value) (key : string) : Outcome JS.Value :=
  match data with
  | JS.VUndefined | JS.VNull => Throw (null_property E)
  | JS.VObj fields => Ret (field key fields)
  | _ => Ret JS.VUndefined
  end.

(** The message of [new Error(v)]: a string is its own text. *)
Definition error_text (v : JS.Value) : string :=
  match v with
  | JS.VStr m => m
  | _ => String_of E v
  end.

Definition sync_request (inv : list Item) : Request :=
  {| req_url := "https://api.example.com/inventory/sync";
     req_method := "POST";
     req_content_type := "application/json";
     req_body := JSON_stringify P inv |}.

(** [syncWithCloud()]; the value is the trace of the requests and timers
    of its call of [fetchWithRetry]. *)
Definition syncWithCloud : M (list NetEvent) :=
  inv ← gets inventory;
  let '(trace, fetched) :=
    fetchWithRetry (fetch_calls E (sync_request inv)) MAX_RETRIES in
  try_catch
    (showToast "Syncing with cloud..." SevInfo;;
     response ← settle fetched;
     data ← settle (response_json E response);
     success ← settle (get_property data "success");
     if truthy success then showToast "Cloud sync successful!" SevSuccess
     else
       message ← settle (get_property data "message");
       throw (JS.new_Error
                (if truthy message then error_text message else "Unknown error")))
    (fun e => showToast ("Cloud sync failed: " +:+ JS.err_message e) SevError);;
  mret trace.

(** [exportInventory()]; [now] is [new Date().toISOString()], the value is
    the link that gets clicked, if any. *)
Definition exportInventory (now : string) : M (option Download) :=
  inv ← gets inventory;
  match inv with
  | [] => showToast "No inventory data to export" SevWarning;; mret None
  | _ :: _ =>
      try_catch
        (let dataStr := JSON_stringify_pretty E inv in
         let dataUri :=
           "data:application/json;charset=utf-8," +:+ encodeURIComponent E dataStr in
         let exportFileName := "inventory_export_" +:+ before_T now +:+ ".json" in
         showToast "Inventory exported successfully" SevSuccess;;
         mret (Some {| href := dataUri; download := exportFileName |}))
        (fun _ => showToast "Error exporting inventory data" SevError;; mret None)
  end.

End Program.

(** A sample engine: the network answers as [calls] says whatever the
    request, a response carries its [body], and values print as a fixed
    text unless they are strings. *)
Definition sample_engine (calls : nat -> FetchOutcome) : Engine :=
  {| fetch_calls := fun _ => calls;
     response_json := fun r => Ret (body r);
     String_of := fun v => match v with JS.VStr s => s | _ => "[object Object]" end;
     null_property :=
       {| JS.err_name := "TypeError";
          JS.err_message := "Cannot read properties of null";
          JS.err_code := None |};
     JSON_stringify_pretty := json_items;
     encodeURIComponent := fun s => s |}.

(** A browser whose [JSON.parse] also reads back the serialisation of one
    collection, [inv]. *)
Definition recalling_browser (capacity : Z) (inv : list Item) : Platform :=
  {| JSON_stringify := json_items;
     JSON_parse := fun text =>
       if String.eqb text (json_items inv)
       then Ret (JS.VArr (map value_of_item inv))
       else literal_parse text;
     setItem_fault := setItem_fault (sample_browser capacity);
     quantity_element := sample_quantity_element;
     item_element := has_item |}.

(** The persisted blob is the serialisation of the collection in memory. *)
Definition synced (P : Platform) (s : State) : Prop :=
  store_get STORAGE_KEY (localStorage s) = Some (JSON_stringify P (inventory s)).

(** A browser whose store never refuses a write. *)
Definition never_refuses (P : Platform) : Prop :=
  forall ls key value, setItem_fault P ls key value = None.

(** From a state satisfying [Pre], [m] returns (it does not throw) a value
    and a state satisfying [Post]. *)
Definition triple {A} (Pre : State -> Prop) (m : M A) (Post : A -> State -> Prop)
    : Prop :=
  forall s, Pre s -> exists a s', m s = (Ret a, s') /\ Post a s'.

(** A property of states that does not look at the page. *)
Definition page_blind (I : State -> Prop) : Prop :=
  forall ev s, I s -> I (log ev s).

(** A state that differs from one satisfying [I] in the collection and the
    page only. *)
Definition adrift (I : State -> Prop) (t : State) : Prop :=
  exists s, I s /\ storageAvailable t = storageAvailable s /\
            localStorage t = localStorage s.

(** A sample browser whose store takes every write. *)
Definition roomy_browser : Platform :=
  {| JSON_stringify := json_items;
     JSON_parse := literal_parse;
     setItem_fault := fun _ _ _ => None;
     quantity_element := sample_quantity_element;
     item_element := has_item |}.

(** The colour of the usage bar, by bytes in use. *)
Definition bar_of_bytes (u : Z) : BarColor :=
  if Z.ltb 4718592 u then bar_red
  else if Z.ltb 3670016 u then bar_yellow
  else bar_blue.

(** The requests and timers of [k] failed attempts in a row, from attempt
    [from] on. *)
Definition failed_attempts (from k : nat) : list NetEvent :=
  flat_map (fun j => [Attempt j; Wait (backoff_delay j)]) (seq from k).

(** The message of the error attempt [k] fails with. *)
Definition failure_message (fetch : nat -> FetchOutcome) (k : nat) : string :=
  match try_fetch (fetch k) with
  | Throw e => JS.err_message e
  | Ret _ => EmptyString
  end.

(** Attempt [k] fails: the request is rejected or answered not ok. *)
Definition fails (fetch : nat -> FetchOutcome) (k : nat) : Prop :=
  exists e, try_fetch (fetch k) = Throw e.

Definition total_wait (tr : list NetEvent) : Z := foldr Z.add 0 (waits tr).


(** Why the image pipeline rejects a file, if it does. *)
Definition rejection (f : ImageFile) : option string :=
  if negb (JS.starts_with "image/" (file_type f))
  then Some "Please select a valid image file"
  else if read_fails f then Some "Error reading file"
  else match natural_size f with
       | None => Some "Error loading image"
       | Some _ => None
       end.


Definition letter : ImageFile :=
  {| file_type := "application/pdf"; read_fails := false;
     natural_size := None;
     toDataURL := fun w h => EmptyString |}.

(** The document accepts the selector made from [target], whatever the
    state: the look-up finds the quantity element or finds none. *)
Definition selector_accepted (P : Platform) (target : string) : Prop :=
  forall s, exists found, quantity_element P s target = Ret found.

(** It accepts the selector of every id the sequence adjusts. *)
Definition adjusts_accepted (P : Platform) (ops : list Op) : Prop :=
  Forall (fun op =>
            match op with
            | OpAdjust target _ => selector_accepted P target
            | _ => True
            end) ops.

(** ** Examples *)

Example parseInt_neg : JS.parseInt " -5px" = Some (-5).
Proof. reflexivity. Qed.
Example parseInt_nan : JS.parseInt "abc" = None.
Proof. reflexivity. Qed.
Example trim_ex : JS.trim "  a b  " = "a b".
Proof. reflexivity. Qed.
Example flaky_run :
  fetchWithRetry flaky 3 = ([Attempt 0; Wait 100; Attempt 1; Wait 200; Attempt 2]%nat, Ret up).
Proof. reflexivity. Qed.
Example always_down_run :
  fetchWithRetry (fun _ => down) 3 =
  ([Attempt 0; Wait 100; Attempt 1; Wait 200; Attempt 2; Wait 400]%nat,
   Throw (JS.new_Error "Failed after 3 attempts: Failed to fetch")).
Proof. reflexivity. Qed.

Example backoff_table :
  map backoff_delay (seq 0 8) = [100; 200; 400; 800; 1600; 2000; 2000; 2000].
Proof. reflexivity. Qed.
Example unavailable_run :
  fetchWithRetry
    (fun _ => FetchResolved {| ok := false; status := 503; body := JS.VNull |}) 2
  = ([Attempt 0; Wait 100; Attempt 1; Wait 200]%nat,
     Throw (JS.new_Error "Failed after 2 attempts: HTTP error! Status: 503")).
Proof. reflexivity. Qed.
Example no_attempt_run :
  snd (fetchWithRetry flaky 0) = Throw (JS.new_Error "Failed after 0 attempts: Unknown error").
Proof. reflexivity. Qed.
Example session_run :
  inventory
    (exec (run (sample_browser 4096)
             [OpAdd " Widget " "5" (Ret None) "k1" "2024-01-01T00:00:00.000Z";
              OpAdd "Gadget" "3" (Ret None) "k2" "2024-01-02T00:00:00.000Z";
              OpAdd "Nameless" "many" (Ret None) "k3" "2024-01-03T00:00:00.000Z";
              OpAdjust "k1" (-999999);
              OpRemove "k2";
              OpRemove "k2"])
       (ready []))
  = [widget 0].
Proof. reflexivity. Qed.
Example save_written_run :
  page (exec (saveInventory (sample_browser 4096)) (stocked [widget 5]))
  = [StorageStatus green "Data saved";
     StorageInfoShown 216 5242880 (21600 # 5242880) bar_blue].
Proof. reflexivity. Qed.
Example refused_save_keeps_mutation :
  inventory (exec (updateItemQuantity (sample_browser 16) "k1" 2) (stocked [widget 5]))
  = [widget 7] /\
  localStorage (exec (updateItemQuantity (sample_browser 16) "k1" 2) (stocked [widget 5]))
  = [] /\
  page (exec (updateItemQuantity (sample_browser 16) "k1" 2) (stocked [widget 5]))
  = [QuantityShown "k1" 7;
     StorageStatus red "Storage quota exceeded";
     Toast "Storage quota exceeded. Try removing some items or images." SevError].
Proof. repeat split. Qed.
Example import_array_run :
  page (exec (importInventory (sample_browser 4096) (Some (ReadLoaded "[]"))) (stocked []))
  = [ConfirmModal "Import Inventory" "This will add 0 items to your inventory. Continue?"
       (CbImportItems [])].
Proof. reflexivity. Qed.

(** ** Retryable fetch: shape of the trace *)

Section RetryLoop.

Variable fetch : nat -> FetchOutcome.
Variable maxRetries : nat.

Lemma retry_loop_head remaining attempt lastError :
  fst (retry_loop fetch maxRetries remaining attempt lastError) = [] \/
  exists tr, fst (retry_loop fetch maxRetries remaining attempt lastError)
             = Attempt attempt :: tr.
Proof.
  destruct remaining as [|r]; simpl; [now left|right].
  destruct (try_fetch (fetch attempt)); [eauto|].
  destruct (retry_loop fetch maxRetries r (S attempt) (Some e)); simpl; eauto.
Qed.

Lemma retry_loop_attempts_ge remaining : forall attempt lastError k,
  Attempt k ∈ fst (retry_loop fetch maxRetries remaining attempt lastError) ->
  (attempt <= k)%nat.
Proof.
  induction remaining as [|r IH]; intros attempt lastError k; simpl.
  - intros H; inversion H.
  - destruct (try_fetch (fetch attempt)) as [resp|e]; simpl.
    + intros H. apply list_elem_of_singleton in H. injection H as ->. lia.
    + specialize (IH (S attempt) (Some e) k).
      destruct (retry_loop fetch maxRetries r (S attempt) (Some e)) as [tr res].
      simpl in *. intros H.
      apply elem_of_cons in H as [H|H]; [injection H as ->; lia|].
      apply elem_of_cons in H as [H|H]; [discriminate|].
      specialize (IH H). lia.
Qed.

Lemma retry_loop_delay_before remaining : forall attempt lastError k,
  (attempt < k)%nat ->
  Attempt k ∈ fst (retry_loop fetch maxRetries remaining attempt lastError) ->
  delay_before k (fst (retry_loop fetch maxRetries remaining attempt lastError))
  = Some (backoff_delay (k - 1)).
Proof.
  induction remaining as [|r IH]; intros attempt lastError k Hlt; simpl.
  - intros H; inversion H.
  - destruct (try_fetch (fetch attempt)) as [resp|e]; simpl.
    + intros H. apply list_elem_of_singleton in H. injection H as ->. lia.
    + pose proof (retry_loop_head r (S attempt) (Some e)) as Hhead.
      pose proof (retry_loop_attempts_ge r (S attempt) (Some e) k) as Hge.
      specialize (IH (S attempt) (Some e) k).
      destruct (retry_loop fetch maxRetries r (S attempt) (Some e)) as [tr res].
      simpl in *. intros H.
      apply elem_of_cons in H as [H|H]; [injection H as ->; lia|].
      apply elem_of_cons in H as [H|H]; [discriminate|].
      destruct Hhead as [->|[tr' ->]]; [inversion H|].
      destruct (Nat.eqb_spec (S attempt) k) as [<-|Hne].
      * simpl. now rewrite Nat.sub_0_r.
      * apply IH; [specialize (Hge H); lia|exact H].
Qed.

(** When every request fails, each of the [remaining] iterations issues its
    request and arms its timer, the last one included. *)
Lemma retry_loop_all_fail (e : nat -> JS.Error) remaining :
  (forall k, try_fetch (fetch k) = Throw (e k)) ->
  forall attempt lastError,
  waits (fst (retry_loop fetch maxRetries remaining attempt lastError))
  = map (fun i => backoff_delay (attempt + i)) (seq 0 remaining).
Proof.
  intros Hfail. induction remaining as [|r IH]; intros attempt lastError; simpl.
  - reflexivity.
  - rewrite Hfail. specialize (IH (S attempt) (Some (e attempt))).
    destruct (retry_loop fetch maxRetries r (S attempt) (Some (e attempt))) as [tr res].
    simpl in *. unfold waits in *. simpl. rewrite IH.
    rewrite Nat.add_0_r. f_equal.
    rewrite <- seq_shift, map_map. apply map_ext. intros i. f_equal. lia.
Qed.

End RetryLoop.

(** C1 (as amended).  The timer armed immediately before request [k]
    (0-indexed, [k >= 1]) of any run of [fetchWithRetry] is
    [min(2^(k-1) * 100, 2000)] milliseconds, the delay computed from the
    index of the attempt that has just failed; and against an endpoint
    whose first two requests fail and whose third succeeds, the call
    returns that response after exactly the two waits 100 and 200. *)
Theorem fetchWithRetry_backoff (fetch : nat -> FetchOutcome) (maxRetries : nat) :
  (forall k, (1 <= k)%nat ->
     Attempt k ∈ fst (fetchWithRetry fetch maxRetries) ->
     delay_before k (fst (fetchWithRetry fetch maxRetries))
     = Some (Z.min (2 ^ (Z.of_nat k - 1) * 100) 2000)) /\
  (forall e0 e1 response,
     try_fetch (fetch 0%nat) = Throw e0 ->
     try_fetch (fetch 1%nat) = Throw e1 ->
     try_fetch (fetch 2%nat) = Ret response ->
     (3 <= maxRetries)%nat ->
     fetchWithRetry fetch maxRetries
     = ([Attempt 0; Wait 100; Attempt 1; Wait 200; Attempt 2], Ret response)).
Proof.
  split.
  - intros k Hk Hin. unfold fetchWithRetry in *.
    rewrite retry_loop_delay_before by (try lia; exact Hin).
    unfold backoff_delay.
    replace (Z.of_nat (k - 1)) with (Z.of_nat k - 1) by lia. reflexivity.
  - intros e0 e1 response H0 H1 H2 Hmax. unfold fetchWithRetry.
    destruct maxRetries as [|[|[|m]]]; try lia.
    simpl. rewrite H0. simpl. rewrite H1. simpl. rewrite H2. reflexivity.
Qed.

Lemma fetchWithRetry_backoff_witness :
  delay_before 2 (fst (fetchWithRetry flaky 3)) = Some 200 /\
  fetchWithRetry flaky 3
  = ([Attempt 0; Wait 100; Attempt 1; Wait 200; Attempt 2], Ret up).
Proof.
  split.
  - apply (proj1 (fetchWithRetry_backoff flaky 3) 2%nat); [lia|].
    vm_compute. do 4 apply list_elem_of_further. apply list_elem_of_here.
  - apply (proj2 (fetchWithRetry_backoff flaky 3)
             (JS.new_Error "Failed to fetch") (JS.new_Error "Failed to fetch") up);
      [reflexivity|reflexivity|reflexivity|lia].
Defined.

(** C1 as stated fails: the wait before request 1 is 100 ms, not
    [min(2^1 * 100, 2000) = 200] ms. *)
Lemma fetchWithRetry_backoff_as_stated_fails :
  Attempt 1 ∈ fst (fetchWithRetry flaky 3) /\
  delay_before 1 (fst (fetchWithRetry flaky 3)) = Some 100 /\
  delay_before 1 (fst (fetchWithRetry flaky 3))
  <> Some (Z.min (2 ^ Z.of_nat 1 * 100) 2000).
Proof.
  split; [|split].
  - vm_compute. do 2 apply list_elem_of_further. apply list_elem_of_here.
  - reflexivity.
  - vm_compute. discriminate.
Qed.

(** C2, evaluated on the code.  With [maxRetries = 3] and every request
    failing, the call arms three timers, 100, 200 and 400 ms (the last one
    after the final attempt, with no request left to make), and then
    throws an error whose message embeds the count 3 and the message of the
    last underlying error. *)
Theorem fetchWithRetry_exhausted (fetch : nat -> FetchOutcome) (e : nat -> JS.Error) :
  (forall k, try_fetch (fetch k) = Throw (e k)) ->
  fetchWithRetry fetch 3
  = ([Attempt 0; Wait 100; Attempt 1; Wait 200; Attempt 2; Wait 400],
     Throw (JS.new_Error ("Failed after 3 attempts: " +:+ JS.err_message (e 2%nat)))).
Proof.
  intros H. unfold fetchWithRetry. simpl. rewrite !H. reflexivity.
Qed.

Lemma fetchWithRetry_exhausted_witness :
  waits (fst (fetchWithRetry (fun _ => down) 3)) = [100; 200; 400] /\
  snd (fetchWithRetry (fun _ => down) 3)
  = Throw (JS.new_Error "Failed after 3 attempts: Failed to fetch").
Proof.
  rewrite (fetchWithRetry_exhausted (fun _ => down)
             (fun _ => JS.new_Error "Failed to fetch") (fun _ => eq_refl)).
  split; reflexivity.
Defined.

(** ** Durable store adapter: how a save ends *)

(** Unfolds the monad down to functions on states. *)
Ltac run_m :=
  cbv [mbind mret M_bind M_ret bind ret throw try_catch gets modify settle
       notify showToast showStorageStatus showConfirmModal updateInventoryDisplay
       exec result].

Lemma updateStorageInfo_unavailable s :
  storageAvailable s = false ->
  updateStorageInfo s = (Ret tt, log StorageInfoHidden s).
Proof. intros H. unfold updateStorageInfo. run_m. rewrite H. reflexivity. Qed.

Lemma updateStorageInfo_available s :
  storageAvailable s = true ->
  let info := getStorageInfo s in
  let shown :=
    log (StorageInfoShown (used info) (quota info)
           (if Qgtb (percentage info) 100 then 100%Q else percentage info)
           (if Qgtb (percentage info) 90 then bar_red
            else if Qgtb (percentage info) 70 then bar_yellow else bar_blue)) s in
  updateStorageInfo s
  = (Ret tt, if Qgtb (percentage info) 85
             then log (Toast low_storage_warning SevWarning) shown else shown).
Proof.
  intros H. unfold updateStorageInfo. run_m. rewrite H. simpl.
  destruct (Qgtb (percentage (getStorageInfo s)) 85); reflexivity.
Qed.

Lemma updateStorageInfo_frame s :
  result updateStorageInfo s = Ret tt /\
  inventory (exec updateStorageInfo s) = inventory s /\
  storageAvailable (exec updateStorageInfo s) = storageAvailable s /\
  localStorage (exec updateStorageInfo s) = localStorage s.
Proof.
  unfold exec, result. destruct (storageAvailable s) eqn:H.
  - rewrite (updateStorageInfo_available s H). simpl.
    destruct (Qgtb _ 85); simpl; auto.
  - rewrite (updateStorageInfo_unavailable s H). simpl. auto.
Qed.

Section StoreFacts.

Variable P : Platform.

Lemma saveInventory_unavailable s :
  storageAvailable s = false -> saveInventory P s = (Ret tt, s).
Proof. intros H. unfold saveInventory. run_m. rewrite H. reflexivity. Qed.

Lemma saveInventory_refused s e :
  storageAvailable s = true ->
  setItem_fault P (localStorage s) STORAGE_KEY (JSON_stringify P (inventory s)) = Some e ->
  saveInventory P s
  = (Ret tt,
     if is_quota_error e
     then log (Toast "Storage quota exceeded. Try removing some items or images." SevError)
            (log (StorageStatus red "Storage quota exceeded") s)
     else log (StorageStatus yellow "Error saving data") s).
Proof.
  intros Ha Hf. unfold saveInventory, localStorage_setItem. run_m.
  rewrite Ha, Hf. destruct (is_quota_error e); reflexivity.
Qed.

Lemma saveInventory_written s :
  storageAvailable s = true ->
  setItem_fault P (localStorage s) STORAGE_KEY (JSON_stringify P (inventory s)) = None ->
  saveInventory P s
  = (Ret tt,
     exec updateStorageInfo
       (log (StorageStatus green "Data saved")
          (set_localStorage
             (store_put STORAGE_KEY (JSON_stringify P (inventory s)) (localStorage s)) s))).
Proof.
  intros Ha Hf. unfold saveInventory, localStorage_setItem. run_m.
  rewrite Ha, Hf. simpl.
  match goal with |- context [updateStorageInfo ?t] =>
    destruct (updateStorageInfo_frame t) as [Hr _];
    unfold result in Hr; destruct (updateStorageInfo t) as [o t']; simpl in *;
    subst o; reflexivity
  end.
Qed.

Lemma saveInventory_frame s :
  result (saveInventory P) s = Ret tt /\
  inventory (exec (saveInventory P) s) = inventory s /\
  storageAvailable (exec (saveInventory P) s) = storageAvailable s.
Proof.
  unfold exec, result. destruct (storageAvailable s) eqn:Ha.
  - destruct (setItem_fault P (localStorage s) STORAGE_KEY
                (JSON_stringify P (inventory s))) as [e|] eqn:Hf.
    + rewrite (saveInventory_refused s e Ha Hf). simpl.
      destruct (is_quota_error e); simpl; auto.
    + rewrite (saveInventory_written s Ha Hf). simpl.
      match goal with |- context [exec updateStorageInfo ?t] =>
        destruct (updateStorageInfo_frame t) as (_ & Hi & Hs & _);
        rewrite Hi, Hs end.
      simpl. auto.
  - rewrite (saveInventory_unavailable s Ha). simpl. auto.
Qed.

End StoreFacts.

(** ** [findIndex] *)

Section FindIndex.

Context {A : Type} (p : A -> bool).

Lemma findIndex_None (l : list A) :
  findIndex p l = None <-> (forall x, x ∈ l -> p x = false).
Proof.
  induction l as [|x l IH]; simpl.
  - split; [intros _ y Hy; inversion Hy|reflexivity].
  - destruct (p x) eqn:Hx.
    + split; [discriminate|]. intros H.
      rewrite (H x) in Hx by apply list_elem_of_here. discriminate.
    + destruct (findIndex p l) as [i|]; simpl.
      * split; [discriminate|]. intros H.
        assert (Some i = None) as Habs; [|discriminate].
        apply IH. intros y Hy. apply H. now apply list_elem_of_further.
      * split; [|reflexivity]. intros _ y Hy.
        apply elem_of_cons in Hy as [->|Hy]; [exact Hx|].
        now apply (proj1 IH).
Qed.

(** The index found is that of the first element satisfying [p]. *)
Lemma findIndex_first (pre : list A) (x : A) (post : list A) :
  (forall y, y ∈ pre -> p y = false) -> p x = true ->
  findIndex p (pre ++ x :: post) = Some (length pre).
Proof.
  induction pre as [|y pre IH]; simpl; intros Hpre Hx.
  - now rewrite Hx.
  - rewrite (Hpre y) by apply list_elem_of_here.
    rewrite IH; [reflexivity| |exact Hx].
    intros z Hz. apply Hpre. now apply list_elem_of_further.
Qed.

Lemma findIndex_Some (l : list A) (i : nat) :
  findIndex p l = Some i ->
  exists pre x post,
    l = pre ++ x :: post /\ length pre = i /\ p x = true /\
    (forall y, y ∈ pre -> p y = false).
Proof.
  revert i. induction l as [|x l IH]; simpl; intros i; [discriminate|].
  destruct (p x) eqn:Hx.
  - intros [= <-]. exists [], x, l. repeat split; auto.
    intros y Hy. inversion Hy.
  - destruct (findIndex p l) as [j|] eqn:Hj; simpl; [|discriminate].
    intros [= <-]. destruct (IH j eq_refl) as (pre & y & post & -> & <- & Hy & Hpre).
    exists (x :: pre), y, post. repeat split; auto.
    intros z Hz. apply elem_of_cons in Hz as [->|Hz]; auto.
Qed.

Lemma findIndex_is_Some (l : list A) :
  (exists x, x ∈ l /\ p x = true) -> exists i, findIndex p l = Some i.
Proof.
  intros (x & Hx & Hp). destruct (findIndex p l) as [i|] eqn:H; [eauto|].
  rewrite (proj1 (findIndex_None l) H x Hx) in Hp. discriminate.
Qed.

End FindIndex.

Lemma id_eqb_false (target : string) (items : list Item) :
  (forall item, item ∈ items -> id item <> target) ->
  forall item, item ∈ items -> String.eqb (id item) target = false.
Proof. intros H item Hin. apply String.eqb_neq. now apply H. Qed.

(** ** Collection store: what the mutations do to the collection *)

Section CollectionFacts.

Variable P : Platform.

Lemma updateItemQuantity_absent s target change :
  findIndex (fun item => String.eqb (id item) target) (inventory s) = None ->
  updateItemQuantity P target change s = (Ret JS.VUndefined, s).
Proof. intros H. unfold updateItemQuantity. run_m. rewrite H. reflexivity. Qed.

(** The state right after the write of the quantity. *)
Lemma updateItemQuantity_found s target change index item :
  findIndex (fun item => String.eqb (id item) target) (inventory s) = Some index ->
  inventory s !! index = Some item ->
  inventory (exec (updateItemQuantity P target change) s)
  = <[index := set_quantity (Z.max 0 (JS.add (quantity item) change)) item]>
      (inventory s) /\
  storageAvailable (exec (updateItemQuantity P target change) s) = storageAvailable s.
Proof.
  intros Hf Hi. unfold updateItemQuantity, querySelector_quantity. run_m.
  rewrite Hf, Hi. simpl.
  destruct (quantity_element P _ target) as [[|]|e]; simpl; [| |auto];
    (destruct (Z.eqb (Z.max 0 (JS.add (quantity item) change)) 0); simpl;
     [destruct (item_element P _ target); simpl|]);
    match goal with |- context [saveInventory P ?t] =>
      destruct (saveInventory_frame P t) as (Hr & Hinv & Hav);
      unfold result, exec in Hr, Hinv, Hav;
      destruct (saveInventory P t) as [o t']; simpl in *; subst o; simpl;
      rewrite Hinv, Hav; auto
    end.
Qed.

(** When the document rejects the selector, the call throws with the
    quantity written and nothing else done. *)
Lemma updateItemQuantity_rejected s target change index item e :
  findIndex (fun item => String.eqb (id item) target) (inventory s) = Some index ->
  inventory s !! index = Some item ->
  quantity_element P
    (set_inventory
       (<[index := set_quantity (Z.max 0 (JS.add (quantity item) change)) item]>
          (inventory s)) s) target = Throw e ->
  updateItemQuantity P target change s
  = (Throw e,
     set_inventory
       (<[index := set_quantity (Z.max 0 (JS.add (quantity item) change)) item]>
          (inventory s)) s).
Proof.
  intros Hf Hi He. unfold updateItemQuantity, querySelector_quantity. run_m.
  rewrite Hf, Hi. simpl. now rewrite He.
Qed.

(** When it does not, the call returns, and what it leaves in the store is
    what a save of the new collection leaves there. *)
Lemma updateItemQuantity_accepted s target change index item found :
  findIndex (fun item => String.eqb (id item) target) (inventory s) = Some index ->
  inventory s !! index = Some item ->
  quantity_element P
    (set_inventory
       (<[index := set_quantity (Z.max 0 (JS.add (quantity item) change)) item]>
          (inventory s)) s) target = Ret found ->
  exists t,
    inventory t
    = <[index := set_quantity (Z.max 0 (JS.add (quantity item) change)) item]>
        (inventory s) /\
    storageAvailable t = storageAvailable s /\
    localStorage t = localStorage s /\
    updateItemQuantity P target change s = (Ret JS.VUndefined, exec (saveInventory P) t).
Proof.
  intros Hf Hi He. unfold updateItemQuantity, querySelector_quantity. run_m.
  rewrite Hf, Hi. simpl. rewrite He. simpl.
  destruct found; simpl;
    (destruct (Z.eqb (Z.max 0 (JS.add (quantity item) change)) 0); simpl;
     [destruct (item_element P _ target); simpl|]);
    match goal with |- context [saveInventory P ?t] =>
      exists t; repeat split;
      destruct (saveInventory_frame P t) as (Hr & _);
      unfold result, exec in *;
      destruct (saveInventory P t) as [o t']; simpl in *; subst o; reflexivity
    end.
Qed.

Lemma deleteItem_absent s target :
  findIndex (fun item => String.eqb (id item) target) (inventory s) = None ->
  deleteItem P target s = (Ret JS.VUndefined, s).
Proof. intros H. unfold deleteItem. run_m. rewrite H. reflexivity. Qed.

Lemma deleteItem_found s target index :
  findIndex (fun item => String.eqb (id item) target) (inventory s) = Some index ->
  result (deleteItem P target) s = Ret JS.VUndefined /\
  inventory (exec (deleteItem P target) s) = delete index (inventory s) /\
  storageAvailable (exec (deleteItem P target) s) = storageAvailable s /\
  last (page (exec (deleteItem P target) s)) = Some (Toast "Item deleted" SevInfo).
Proof.
  intros Hf. unfold deleteItem. run_m. rewrite Hf. simpl.
  match goal with |- context [saveInventory P ?t] =>
    destruct (saveInventory_frame P t) as (Hr & Hinv & Hav);
    unfold result, exec in Hr, Hinv, Hav;
    destruct (saveInventory P t) as [o t']; simpl in *; subst o; simpl;
    rewrite Hinv, Hav, last_snoc; auto
  end.
Qed.

End CollectionFacts.

(** ** Claims on the collection store *)

Lemma round_double_exact (z : Z) : Z.abs z <= 2 ^ 53 -> JS.round_double z = z.
Proof.
  intros Hz. unfold JS.round_double.
  destruct (Z.ltb_spec (Z.abs z) (2 ^ 53)) as [_|Hge]; [reflexivity|].
  assert (z = 2 ^ 53 \/ z = - 2 ^ 53) as [-> | ->] by lia; reflexivity.
Qed.

(** Up to 2^53 in magnitude the sum of the source is the sum of the
    integers. *)
Lemma add_exact (a b : Z) : Z.abs (a + b) <= 2 ^ 53 -> JS.add a b = a + b.
Proof. apply round_double_exact. Qed.

(** Beyond, the sum of the source is off by at most half the spacing of the
    doubles at that magnitude. *)
Lemma round_double_near (z : Z) :
  2 ^ 53 <= Z.abs z ->
  2 * Z.abs (JS.round_double z - z) <= 2 ^ (Z.log2 (Z.abs z) - 52) /\
  (JS.round_double z) mod 2 ^ (Z.log2 (Z.abs z) - 52) = 0.
Proof.
  intros Hz. unfold JS.round_double.
  destruct (Z.ltb_spec (Z.abs z) (2 ^ 53)) as [Hlt|_]; [lia|].
  set (m := Z.abs z) in *.
  assert (53 <= Z.log2 m) as Hlog by (apply Z.log2_le_pow2; lia).
  set (ulp := 2 ^ (Z.log2 m - 52)).
  assert (0 < ulp) as Hulp by (apply Z.pow_pos_nonneg; lia).
  pose proof (Z.div_mod m ulp ltac:(lia)) as Hdm.
  pose proof (Z.mod_pos_bound m ulp Hulp) as Hr.
  set (q := m / ulp) in *. set (r := m mod ulp) in *.
  assert (Z.sgn z * m = z) as Hsgn by (subst m; lia).
  split.
  - destruct (Z.ltb_spec (2 * r) ulp); [|destruct (Z.ltb_spec ulp (2 * r));
      [|destruct (Z.even q)]];
      rewrite <- Hsgn at 2; rewrite <- Z.mul_sub_distr_l, Z.abs_mul;
      replace (Z.abs (Z.sgn z)) with 1 by lia; nia.
  - rewrite Z.mul_assoc. apply Z.mod_mul. lia.
Qed.



(** C10.  When some item has the id, [updateItemQuantity] changes one
    position of the collection only, that of the first item with the id,
    and there only the quantity: the item keeps its id, name, image and
    creation time, every other position holds the same item as before, and
    the length and the order of the ids are those of the collection
    before.  The quantity it gets is [max(0, current + change)]: with the
    sum of the integers while that is at most 2^53 in magnitude, and with
    the sum of the source's numbers for every finite sum. *)
Theorem updateItemQuantity_frame (P : Platform) (s : State) (target : string) (change : Z) :
  (exists item, item ∈ inventory s /\ id item = target) ->
  let inv := inventory s in
  let inv' := inventory (exec (updateItemQuantity P target change) s) in
  length inv' = length inv /\
  map id inv' = map id inv /\
  exists index item item',
    findIndex (fun it => String.eqb (id it) target) inv = Some index /\
    inv !! index = Some item /\ id item = target /\
    inv' !! index = Some item' /\
    id item' = id item /\ name item' = name item /\
    image item' = image item /\ createdAt item' = createdAt item /\
    (Z.abs (quantity item + change) <= 2 ^ 53 ->
     quantity item' = Z.max 0 (quantity item + change)) /\
    (JS.add (quantity item) change < 2 ^ 1024 ->
     quantity item' = Z.max 0 (JS.add (quantity item) change)) /\
    forall j, j <> index -> inv' !! j = inv !! j.
Proof.
  intros (witness & Hin & Hid) inv inv'. subst inv inv'.
  destruct (findIndex_is_Some (fun it => String.eqb (id it) target) (inventory s))
    as [index Hf].
  { exists witness. split; [exact Hin|]. now apply String.eqb_eq. }
  destruct (findIndex_Some _ _ _ Hf) as (pre & item & post & Hinv & Hlen & Hp & Hpre).
  assert (inventory s !! index = Some item) as Hi.
  { rewrite Hinv. now apply list_lookup_middle. }
  destruct (updateItemQuantity_found P s target change _ _ Hf Hi) as (-> & _).
  split; [apply length_insert|]. split.
  - rewrite list_fmap_insert. simpl. apply list_insert_id.
    now rewrite list_lookup_fmap, Hi.
  - exists index, item,
      (set_quantity (Z.max 0 (JS.add (quantity item) change)) item).
    repeat split; auto.
    + now apply String.eqb_eq.
    + apply list_lookup_insert_eq. now apply lookup_lt_Some in Hi.
    + intros Hsafe. simpl. now rewrite (add_exact _ _ Hsafe).
    + intros j Hj. now apply list_lookup_insert_ne.
Qed.

Lemma updateItemQuantity_frame_witness :
  length (inventory (exec (updateItemQuantity (sample_browser 4096) "k1" 2)
                       (stocked [gadget 3; widget 5; widget 9]))) = 3%nat /\
  map id (inventory (exec (updateItemQuantity (sample_browser 4096) "k1" 2)
                       (stocked [gadget 3; widget 5; widget 9])))
  = ["k2"; "k1"; "k1"].
Proof.
  destruct (updateItemQuantity_frame (sample_browser 4096)
              (stocked [gadget 3; widget 5; widget 9]) "k1" 2) as (Hl & Hm & _).
  - exists (widget 5). split; [|reflexivity].
    apply list_elem_of_further, list_elem_of_here.
  - split; [exact Hl|exact Hm].
Defined.

(** C4 (as amended).  [deleteItem(id)] has no return value: the call
    evaluates to [undefined] whether or not the id is present.  When no
    item has the id the whole state is left as it was (collection, store
    and page); when one has, the first item with the id is removed, the
    collection is one shorter, and the last thing the page is asked to show
    is the 'Item deleted' notification. *)
Theorem deleteItem_effect (P : Platform) (s : State) (target : string) :
  result (deleteItem P target) s = Ret JS.VUndefined /\
  ((forall item, item ∈ inventory s -> id item <> target) ->
   exec (deleteItem P target) s = s) /\
  (forall pre item post,
     inventory s = pre ++ item :: post ->
     (forall x, x ∈ pre -> id x <> target) ->
     id item = target ->
     inventory (exec (deleteItem P target) s) = pre ++ post /\
     S (length (inventory (exec (deleteItem P target) s))) = length (inventory s) /\
     last (page (exec (deleteItem P target) s)) = Some (Toast "Item deleted" SevInfo)).
Proof.
  split; [|split].
  - destruct (findIndex (fun it => String.eqb (id it) target) (inventory s))
      as [index|] eqn:Hf.
    + now destruct (deleteItem_found P s target index Hf).
    + unfold result. now rewrite deleteItem_absent.
  - intros Habs. unfold exec. rewrite deleteItem_absent; [reflexivity|].
    apply findIndex_None. now apply id_eqb_false.
  - intros pre item post Hinv Hpre Hid.
    assert (findIndex (fun it => String.eqb (id it) target) (inventory s)
            = Some (length pre)) as Hf.
    { rewrite Hinv. apply findIndex_first; [now apply id_eqb_false|].
      now apply String.eqb_eq. }
    destruct (deleteItem_found P s target _ Hf) as (_ & -> & _ & Hlast).
    rewrite Hinv, delete_middle. repeat split; [|exact Hlast].
    rewrite !length_app. simpl. lia.
Qed.

Lemma deleteItem_effect_witness :
  exec (deleteItem (sample_browser 4096) "ghost") (stocked [gadget 3; widget 5])
  = stocked [gadget 3; widget 5] /\
  inventory (exec (deleteItem (sample_browser 4096) "k1")
               (stocked [gadget 3; widget 5; widget 9]))
  = [gadget 3; widget 9].
Proof.
  split.
  - apply (proj1 (proj2 (deleteItem_effect (sample_browser 4096)
                           (stocked [gadget 3; widget 5]) "ghost"))).
    intros item Hin. simpl in Hin.
    apply elem_of_cons in Hin as [->|Hin]; [discriminate|].
    apply elem_of_cons in Hin as [->|Hin]; [discriminate|inversion Hin].
  - apply (proj2 (proj2 (deleteItem_effect (sample_browser 4096)
                           (stocked [gadget 3; widget 5; widget 9]) "k1"))
             [gadget 3] (widget 5) [widget 9]); [reflexivity| |reflexivity].
    intros x Hin. apply list_elem_of_singleton in Hin as ->. discriminate.
Defined.

(** C4 as stated fails: on an absent id the call does not return [false],
    and on a present id it does not return [true]. *)
Lemma deleteItem_returns_no_boolean :
  result (deleteItem (sample_browser 4096) "ghost") (stocked [widget 5])
  <> Ret (JS.VBool false) /\
  result (deleteItem (sample_browser 4096) "k1") (stocked [widget 5])
  <> Ret (JS.VBool true).
Proof. split; vm_compute; discriminate. Qed.

(** ** Sequences of operations *)

Section RunFacts.

Variable P : Platform.

Lemma addItem_runs nameValue quantityValue processed newId now s :
  result (addItem P nameValue quantityValue processed newId now) s = Ret tt /\
  (inventory (exec (addItem P nameValue quantityValue processed newId now) s)
   = inventory s \/
   exists q imageData,
     JS.parseInt quantityValue = Some q /\ processed = Ret imageData /\
     JS.trim nameValue <> EmptyString /\
     inventory (exec (addItem P nameValue quantityValue processed newId now) s)
     = inventory s ++ [{| id := newId; name := JS.trim nameValue; quantity := q;
                          image := imageData; createdAt := now |}]).
Proof.
  unfold addItem.
  destruct (JS.trim nameValue) as [|c r] eqn:Hname; [split; [reflexivity|now left]|].
  destruct (JS.parseInt quantityValue) as [q|]; [|split; [reflexivity|now left]].
  destruct processed as [imageData|e]; run_m; simpl.
  - match goal with |- context [saveInventory P ?t] =>
      destruct (saveInventory_frame P t) as (Hr & Hinv & _);
      unfold result, exec in Hr, Hinv;
      destruct (saveInventory P t) as [o t']; simpl in *; subst o; simpl
    end.
    split; [reflexivity|]. right. exists q, imageData.
    repeat split; [discriminate|]. now rewrite Hinv.
  - split; [reflexivity|now left].
Qed.

Lemma updateItemQuantity_runs target change s :
  inventory (exec (updateItemQuantity P target change) s) = inventory s \/
  exists index item,
    inventory s !! index = Some item /\
    inventory (exec (updateItemQuantity P target change) s)
    = <[index := set_quantity (Z.max 0 (JS.add (quantity item) change)) item]>
        (inventory s).
Proof.
  destruct (findIndex (fun it => String.eqb (id it) target) (inventory s))
    as [index|] eqn:Hf.
  - destruct (findIndex_Some _ _ _ Hf) as (pre & item & post & Hinv & Hlen & _).
    assert (inventory s !! index = Some item) as Hi.
    { rewrite Hinv. now apply list_lookup_middle. }
    destruct (updateItemQuantity_found P s target change _ _ Hf Hi) as (Hinv' & _).
    right. eauto.
  - unfold exec. rewrite updateItemQuantity_absent by exact Hf. now left.
Qed.

Lemma deleteItem_runs target s :
  result (deleteItem P target) s = Ret JS.VUndefined /\
  (inventory (exec (deleteItem P target) s) = inventory s \/
   exists index, inventory (exec (deleteItem P target) s) = delete index (inventory s)).
Proof.
  destruct (findIndex (fun it => String.eqb (id it) target) (inventory s))
    as [index|] eqn:Hf.
  - destruct (deleteItem_found P s target index Hf) as (Hr & Hinv & _).
    split; [exact Hr|]. right. eauto.
  - unfold result, exec. rewrite deleteItem_absent by exact Hf.
    split; [reflexivity|now left].
Qed.

Lemma exec_then_ret {A} (m : M A) (s : State) : exec (m;; mret tt) s = exec m s.
Proof. unfold exec. run_m. now destruct (m s) as [[a|e] t]. Qed.

(** The next handler starts from the state the previous one left, whether
    that one returned or threw. *)
Lemma run_cons op ops s : run P (op :: ops) s = run P ops (exec (step P op) s).
Proof. simpl. unfold exec. run_m. now destruct (step P op s) as [[[]|e] t]. Qed.

Lemma exec_run_cons op ops s :
  exec (run P (op :: ops)) s = exec (run P ops) (exec (step P op) s).
Proof. unfold exec at 1 2. now rewrite run_cons. Qed.

(** A step keeps the quantities non-negative, whether it returns or throws,
    unless it is an add whose quantity field parses to a negative number. *)
Lemma step_nonneg op s :
  match op with
  | OpAdd _ quantityValue _ _ _ =>
      forall q, JS.parseInt quantityValue = Some q -> 0 <= q
  | _ => True
  end ->
  nonneg (inventory s) -> nonneg (inventory (exec (step P op) s)).
Proof.
  destruct op as [nameValue quantityValue processed newId now|target change|target];
    simpl.
  - destruct (addItem_runs nameValue quantityValue processed newId now s)
      as [Hr [->|(q & imageData & Hq & _ & _ & ->)]];
      intros Hadd Hs; [exact Hs|].
    apply Forall_app. split; [exact Hs|].
    apply Forall_singleton. simpl. now apply Hadd.
  - rewrite exec_then_ret. intros _ Hs.
    destruct (updateItemQuantity_runs target change s)
      as [->|(index & item & Hi & ->)]; [exact Hs|].
    apply Forall_insert; [exact Hs|]. simpl. lia.
  - rewrite exec_then_ret. intros _ Hs.
    destruct (deleteItem_runs target s) as [_ [->|(index & ->)]]; [exact Hs|].
    now apply Forall_delete.
Qed.

(** Whether its handlers return or throw, a sequence of adds, quantity
    changes and removals keeps every quantity non-negative, provided the
    collection starts that way and no add carries a quantity field that
    parses to a negative number: the two other operations never introduce
    a negative quantity. *)
Theorem run_nonneg_when_adds_nonneg ops : forall s,
  adds_nonneg ops -> nonneg (inventory s) ->
  nonneg (inventory (exec (run P ops) s)).
Proof.
  induction ops as [|op ops IH]; intros s Hops Hs; [exact Hs|].
  apply Forall_cons in Hops as [Hop Hops].
  rewrite exec_run_cons. apply IH; [exact Hops|].
  now apply step_nonneg.
Qed.

End RunFacts.

(** C3, evaluated on the code.  The add handler stores whatever integer
    [parseInt] reads from the quantity field: submitting the form with the
    quantity field ["-5"] on an empty collection, in any state of the store
    and of the page, leaves an item of quantity -5 in it, so the collection
    reached by this one-operation sequence has a negative quantity. *)
Theorem add_stores_negative_quantity (P : Platform) (s : State) :
  inventory (exec (run P [OpAdd "Widget" "-5" (Ret None) "k1" "2024-01-01T00:00:00.000Z"])
               (set_inventory [] s))
  = [widget (-5)] /\
  ~ nonneg (inventory
              (exec (run P [OpAdd "Widget" "-5" (Ret None) "k1" "2024-01-01T00:00:00.000Z"])
                 (set_inventory [] s))).
Proof.
  assert (inventory
            (exec (run P [OpAdd "Widget" "-5" (Ret None) "k1" "2024-01-01T00:00:00.000Z"])
               (set_inventory [] s)) = [widget (-5)]) as H.
  { unfold exec. simpl run. unfold step, addItem.
    change (JS.trim "Widget") with "Widget".
    change (JS.parseInt "-5") with (Some (-5)).
    run_m. simpl.
    match goal with |- context [saveInventory P ?t] =>
      destruct (saveInventory_frame P t) as (Hr & Hinv & _);
      unfold result, exec in Hr, Hinv;
      destruct (saveInventory P t) as [o t']; simpl in *; subst o; simpl;
      rewrite Hinv; reflexivity
    end. }
  split; [exact H|]. rewrite H. intros Hn.
  apply Forall_cons in Hn as [Hn _]. simpl in Hn. lia.
Qed.

(** ** Capacity monitor *)

Lemma used_bytes_from (ls : list (string * string)) : forall acc,
  fold_left
    (fun used '(key, value) =>
       used + (Z.of_nat (String.length key) + Z.of_nat (String.length value)) * 2)
    ls acc
  = acc + spec_usedBytes ls.
Proof.
  unfold spec_usedBytes.
  induction ls as [|[key value] ls IH]; intros acc; simpl foldr; simpl fold_left.
  - lia.
  - rewrite IH. simpl fst; simpl snd. lia.
Qed.

Lemma used_bytes_spec (ls : list (string * string)) :
  used_bytes ls = spec_usedBytes ls.
Proof. unfold used_bytes. now rewrite used_bytes_from. Qed.

Lemma filler_length (p : positive) :
  Z.of_nat (String.length (filler p)) = Z.pos p.
Proof.
  unfold filler. rewrite Pos2Nat.inj_iter.
  rewrite <- positive_nat_Z.
  induction (Pos.to_nat p) as [|n IH]; simpl; [reflexivity|].
  simpl in IH. lia.
Qed.

(** In bytes: the percentage is above 85 exactly when more than 4456448
    bytes are in use. *)
Lemma percentage_above_85 (s : State) :
  storageAvailable s = true ->
  (85 < percentage (getStorageInfo s))%Q <-> 4456448 < used_bytes (localStorage s).
Proof.
  intros Ha. unfold getStorageInfo. rewrite Ha. simpl.
  unfold Qlt, Qdiv, Qmult, Qinv, inject_Z. simpl. lia.
Qed.

(** C6 (as amended).  While the store is available, [getStorageInfo]
    reports as used bytes the sum over every persisted key of key length
    plus value length at two bytes per character, as quota the fixed
    constant 5 MiB, and as percentage used / quota * 100; while the store
    is flagged unavailable it reports 0 for all three, whatever the store
    holds. *)
Theorem getStorageInfo_accounting (s : State) :
  (storageAvailable s = true ->
   used (getStorageInfo s) = spec_usedBytes (localStorage s) /\
   quota (getStorageInfo s) = 5 * 1024 * 1024 /\
   percentage (getStorageInfo s)
   = (inject_Z (used (getStorageInfo s)) / inject_Z (quota (getStorageInfo s)) * 100)%Q) /\
  (storageAvailable s = false ->
   getStorageInfo s = {| used := 0; quota := 0; percentage := 0%Q |}).
Proof.
  unfold getStorageInfo. split; intros ->; simpl; [|reflexivity].
  split; [apply used_bytes_spec|]. split; reflexivity.
Qed.

Lemma getStorageInfo_accounting_witness :
  used (getStorageInfo (ready [("stockInventory", "[]"); ("theme", "dark")])) = 50 /\
  quota (getStorageInfo (ready [("stockInventory", "[]"); ("theme", "dark")])) = 5242880 /\
  getStorageInfo (initial [("stockInventory", "[]")])
  = {| used := 0; quota := 0; percentage := 0%Q |}.
Proof.
  destruct (proj1 (getStorageInfo_accounting
                     (ready [("stockInventory", "[]"); ("theme", "dark")])) eq_refl)
    as (Hu & Hq & _).
  split; [rewrite Hu; reflexivity|]. split; [rewrite Hq; reflexivity|].
  apply (proj2 (getStorageInfo_accounting (initial [("stockInventory", "[]")]))).
  reflexivity.
Defined.

(** C6 as stated fails: before the availability probe has passed, a store
    holding one key of 14 characters with a value of 2 is reported with 0
    bytes used and a quota of 0. *)
Lemma getStorageInfo_unavailable_reports_zero :
  spec_usedBytes (localStorage (initial [("stockInventory", "[]")])) = 32 /\
  used (getStorageInfo (initial [("stockInventory", "[]")])) = 0 /\
  quota (getStorageInfo (initial [("stockInventory", "[]")])) <> 5 * 1024 * 1024.
Proof. repeat split. vm_compute. discriminate. Qed.

(** C7.  When the store is available and [localStorage.setItem] throws,
    [saveInventory] returns normally; the store and the collection are
    left as they were; and the page is told: the red status 'Storage quota
    exceeded' and an error notification when the exception is a
    QuotaExceededError (by name, or by code 22), the status 'Error saving
    data' for any other exception. *)
Theorem saveInventory_failure_reported (P : Platform) (s : State) (e : JS.Error) :
  storageAvailable s = true ->
  setItem_fault P (localStorage s) STORAGE_KEY (JSON_stringify P (inventory s)) = Some e ->
  result (saveInventory P) s = Ret tt /\
  inventory (exec (saveInventory P) s) = inventory s /\
  localStorage (exec (saveInventory P) s) = localStorage s /\
  page (exec (saveInventory P) s)
  = page s ++
    (if String.eqb (JS.err_name e) "QuotaExceededError" ||
        bool_decide (JS.err_code e = Some 22)
     then [StorageStatus red "Storage quota exceeded";
           Toast "Storage quota exceeded. Try removing some items or images." SevError]
     else [StorageStatus yellow "Error saving data"]).
Proof.
  intros Ha Hf. unfold result, exec. rewrite (saveInventory_refused P s e Ha Hf).
  assert (is_quota_error e
          = String.eqb (JS.err_name e) "QuotaExceededError" ||
            bool_decide (JS.err_code e = Some 22)) as ->.
  { unfold is_quota_error. f_equal. destruct (JS.err_code e) as [c|]; [|reflexivity].
    destruct (Z.eqb_spec c 22) as [->|Hne]; [reflexivity|].
    symmetry. apply bool_decide_eq_false. congruence. }
  simpl. destruct (_ || _); simpl; rewrite <- ?app_assoc; auto.
Qed.

Lemma saveInventory_failure_reported_witness :
  result (saveInventory (sample_browser 16)) (stocked [widget 5]) = Ret tt /\
  inventory (exec (saveInventory (sample_browser 16)) (stocked [widget 5])) = [widget 5] /\
  localStorage (exec (saveInventory (sample_browser 16)) (stocked [widget 5])) = [] /\
  page (exec (saveInventory (sample_browser 16)) (stocked [widget 5]))
  = [StorageStatus red "Storage quota exceeded";
     Toast "Storage quota exceeded. Try removing some items or images." SevError].
Proof.
  apply (saveInventory_failure_reported (sample_browser 16) (stocked [widget 5])
           quota_exceeded); vm_compute; reflexivity.
Defined.

(** C8.  When the text of the import file parses to a value that is not an
    array, [importInventory] ends normally with exactly one effect: the
    page is asked to show the error notification 'Error importing inventory
    data: Invalid inventory data format'.  No confirmation is requested, and
    the collection and the store are left as they were. *)
Theorem importInventory_rejects_non_array (P : Platform) (s : State)
    (text : string) (v : JS.Value) :
  JSON_parse P text = Ret v ->
  JS.Array_isArray v = false ->
  importInventory P (Some (ReadLoaded text)) s
  = (Ret tt,
     {| inventory := inventory s;
        storageAvailable := storageAvailable s;
        localStorage := localStorage s;
        page := page s ++
                [Toast "Error importing inventory data: Invalid inventory data format"
                   SevError] |}).
Proof.
  intros Hparse Harr. unfold importInventory, importInventory_onload. run_m.
  rewrite Hparse, Harr. reflexivity.
Qed.

Lemma importInventory_rejects_non_array_witness :
  importInventory (sample_browser 4096) (Some (ReadLoaded "{}")) (stocked [widget 5])
  = (Ret tt,
     {| inventory := [widget 5];
        storageAvailable := true;
        localStorage := [];
        page := [Toast "Error importing inventory data: Invalid inventory data format"
                   SevError] |}).
Proof.
  apply (importInventory_rejects_non_array (sample_browser 4096) (stocked [widget 5])
           "{}" (JS.VObj [])); reflexivity.
Defined.

Lemma Qgtb_true (a b : Q) : (b < a)%Q -> Qgtb a b = true.
Proof.
  intros H. unfold Qgtb. destruct (Qle_bool a b) eqn:Hle; [|reflexivity].
  apply Qle_bool_iff in Hle. exfalso. exact (Qlt_not_le _ _ H Hle).
Qed.

Lemma warnings_snoc (evs : list UIEvent) (ev : UIEvent) :
  warnings (evs ++ [ev])
  = (warnings evs + if is_low_storage_warning ev then 1 else 0)%nat.
Proof.
  unfold warnings. rewrite filter_app, length_app. f_equal.
  rewrite filter_cons, filter_nil.
  destruct (is_low_storage_warning ev); reflexivity.
Qed.

(** One recomputation above the threshold: the figures are shown, then the
    warning. *)
Lemma updateStorageInfo_above s :
  (85 < percentage (getStorageInfo s))%Q ->
  exists shown,
    is_low_storage_warning shown = false /\
    exec updateStorageInfo s
    = log (Toast low_storage_warning SevWarning) (log shown s).
Proof.
  intros H.
  assert (storageAvailable s = true) as Ha.
  { destruct (storageAvailable s) eqn:Ha; [reflexivity|].
    unfold getStorageInfo in H. rewrite Ha in H. simpl in H.
    exfalso. revert H. apply Qle_not_lt. discriminate. }
  unfold exec. rewrite (updateStorageInfo_available s Ha). simpl.
  rewrite (Qgtb_true _ _ H). eexists. split; [|reflexivity]. reflexivity.
Qed.

(** C9.  Whenever [updateStorageInfo] runs in a state whose usage
    percentage is above 85, the last thing it asks the page to show is the
    low-storage warning; and nothing dampens it: [n] recomputations in a row
    add [n] warnings to what the page was asked to show. *)
Theorem updateStorageInfo_warns (s : State) :
  (85 < percentage (getStorageInfo s))%Q ->
  last (page (exec updateStorageInfo s)) = Some (Toast low_storage_warning SevWarning) /\
  forall n : nat,
    warnings (page (Nat.iter n (exec updateStorageInfo) s))
    = (warnings (page s) + n)%nat.
Proof.
  intros H. split.
  - destruct (updateStorageInfo_above s H) as (shown & _ & ->). simpl.
    apply last_snoc.
  - intros n.
    assert (getStorageInfo (Nat.iter n (exec updateStorageInfo) s) = getStorageInfo s /\
            warnings (page (Nat.iter n (exec updateStorageInfo) s))
            = (warnings (page s) + n)%nat) as [_ Hn]; [|exact Hn].
    induction n as [|n [IHinfo IHn]]; simpl; [split; [reflexivity|lia]|].
    rewrite <- IHinfo in H.
    destruct (updateStorageInfo_above _ H) as (shown & Hshown & ->).
    split.
    + rewrite <- IHinfo. reflexivity.
    + simpl. rewrite !warnings_snoc, Hshown, IHn. simpl. lia.
Qed.

(** The example of the specification: 4.5 MiB in use out of 5 MiB. *)
Lemma updateStorageInfo_warns_witness :
  used (getStorageInfo (ready [(STORAGE_KEY, filler 2359282)])) = 4718592 /\
  (85 < percentage (getStorageInfo (ready [(STORAGE_KEY, filler 2359282)])))%Q /\
  last (page (exec updateStorageInfo (ready [(STORAGE_KEY, filler 2359282)])))
  = Some (Toast low_storage_warning SevWarning) /\
  warnings (page (Nat.iter 3 (exec updateStorageInfo)
                    (ready [(STORAGE_KEY, filler 2359282)]))) = 3%nat.
Proof.
  assert (used_bytes [(STORAGE_KEY, filler 2359282)] = 4718592) as Hused.
  { cbv [used_bytes fold_left]. rewrite filler_length. reflexivity. }
  assert (85 < percentage (getStorageInfo (ready [(STORAGE_KEY, filler 2359282)])))%Q
    as Habove.
  { apply percentage_above_85; [reflexivity|].
    change (localStorage (ready [(STORAGE_KEY, filler 2359282)]))
      with [(STORAGE_KEY, filler 2359282)].
    rewrite Hused. reflexivity. }
  split; [exact Hused|]. split; [exact Habove|].
  destruct (updateStorageInfo_warns _ Habove) as [Hlast Hn].
  split; [exact Hlast|]. exact (Hn 3%nat).
Defined.

(** ** The key-value store *)

Lemma store_get_put_eq key value ls :
  store_get key (store_put key value ls) = Some value.
Proof.
  induction ls as [|[k v] ls IH]; simpl.
  - now rewrite String.eqb_refl.
  - destruct (String.eqb_spec k key) as [->|Hne]; simpl.
    + now rewrite String.eqb_refl.
    + destruct (String.eqb_spec k key); [contradiction|exact IH].
Qed.

Lemma store_get_put_ne key key' value ls :
  key' <> key -> store_get key' (store_put key value ls) = store_get key' ls.
Proof.
  intros Hne. induction ls as [|[k v] ls IH]; simpl.
  - destruct (String.eqb_spec key key'); [congruence|reflexivity].
  - destruct (String.eqb_spec k key) as [->|Hk]; simpl.
    + destruct (String.eqb_spec key key'); [congruence|reflexivity].
    + now rewrite IH.
Qed.

Lemma store_get_None key ls :
  store_get key ls = None <-> key ∉ map fst ls.
Proof.
  induction ls as [|[k v] ls IH]; simpl.
  - split; [intros _ H; inversion H|reflexivity].
  - destruct (String.eqb_spec k key) as [->|Hk].
    + split; [discriminate|]. intros H. exfalso. apply H. apply list_elem_of_here.
    + rewrite IH. rewrite not_elem_of_cons. split; [intros H; split; congruence|tauto].
Qed.

Lemma store_put_keys key value ls :
  map fst (store_put key value ls)
  = match store_get key ls with
    | Some _ => map fst ls
    | None => map fst ls ++ [key]
    end.
Proof.
  induction ls as [|[k v] ls IH]; simpl; [reflexivity|].
  destruct (String.eqb_spec k key) as [->|Hk]; simpl; [reflexivity|].
  rewrite IH. now destruct (store_get key ls).
Qed.

Lemma store_put_wf key value ls : store_wf ls -> store_wf (store_put key value ls).
Proof.
  unfold store_wf. intros Hwf. rewrite store_put_keys.
  destruct (store_get key ls) eqn:Hget; [exact Hwf|].
  apply NoDup_app. split; [exact Hwf|]. split; [|apply NoDup_singleton].
  intros k Hk Hk'. apply list_elem_of_singleton in Hk' as ->.
  now apply store_get_None in Hget.
Qed.

Lemma store_remove_absent key ls :
  store_get key ls = None -> store_remove key ls = ls.
Proof.
  induction ls as [|[k v] ls IH]; simpl; [reflexivity|].
  destruct (String.eqb_spec k key); [discriminate|].
  intros H. now rewrite IH.
Qed.

Lemma store_remove_put key value ls :
  store_remove key (store_put key value ls) = store_remove key ls.
Proof.
  induction ls as [|[k v] ls IH]; simpl.
  - now rewrite String.eqb_refl.
  - destruct (String.eqb_spec k key) as [->|Hk]; simpl.
    + now rewrite String.eqb_refl.
    + destruct (String.eqb_spec k key); [contradiction|now rewrite IH].
Qed.

Lemma store_get_remove_ne key key' ls :
  key' <> key -> store_get key' (store_remove key ls) = store_get key' ls.
Proof.
  intros Hne. induction ls as [|[k v] ls IH]; simpl; [reflexivity|].
  destruct (String.eqb_spec k key) as [->|Hk]; simpl.
  - destruct (String.eqb_spec key key'); [congruence|reflexivity].
  - now rewrite IH.
Qed.

Lemma used_bytes_cons key value ls :
  used_bytes ((key, value) :: ls)
  = 2 * (Z.of_nat (String.length key) + Z.of_nat (String.length value)) + used_bytes ls.
Proof. rewrite !used_bytes_spec. unfold spec_usedBytes. simpl. lia. Qed.

Lemma used_bytes_app ls ls' : used_bytes (ls ++ ls') = used_bytes ls + used_bytes ls'.
Proof.
  induction ls as [|[k v] ls IH]; simpl app.
  - change (used_bytes []) with 0. lia.
  - rewrite !used_bytes_cons, IH. lia.
Qed.

(** The usage figure after a write: a fresh key costs its own length and
    that of its value, an overwritten key the difference of the values;
    two bytes a character. *)
Theorem used_bytes_after_put (key value : string) (ls : list (string * string)) :
  used_bytes (store_put key value ls)
  = used_bytes ls + 2 * Z.of_nat (String.length value)
    + match store_get key ls with
      | Some old => - 2 * Z.of_nat (String.length old)
      | None => 2 * Z.of_nat (String.length key)
      end.
Proof.
  induction ls as [|[k v] ls IH].
  - simpl store_put. simpl store_get. rewrite used_bytes_cons.
    change (used_bytes []) with 0. lia.
  - simpl. destruct (String.eqb_spec k key) as [->|Hk].
    + rewrite !used_bytes_cons. lia.
    + rewrite !used_bytes_cons, IH. lia.
Qed.

Lemma used_bytes_nonneg (ls : list (string * string)) : 0 <= used_bytes ls.
Proof.
  induction ls as [|[k v] ls IH].
  - now change (used_bytes []) with 0.
  - rewrite used_bytes_cons. lia.
Qed.

(** The usage figure does not depend on the order of the keys, is even and
    is never negative. *)
Theorem used_bytes_order_free (ls ls' : list (string * string)) :
  ls ≡ₚ ls' ->
  used_bytes ls = used_bytes ls' /\ 0 <= used_bytes ls /\ (used_bytes ls) mod 2 = 0.
Proof.
  intros Hperm. split; [|split].
  - induction Hperm as [|[k v] l l' _ IH|[k v] [k' v'] l|l l' l'' _ IH1 _ IH2].
    + reflexivity.
    + rewrite !used_bytes_cons. lia.
    + rewrite !used_bytes_cons. lia.
    + congruence.
  - clear. induction ls as [|[k v] ls IH].
    + now change (used_bytes []) with 0.
    + rewrite used_bytes_cons. lia.
  - rewrite used_bytes_spec. unfold spec_usedBytes.
    rewrite Z.mul_comm. apply Z.mod_mul. lia.
Qed.

Lemma used_bytes_order_free_witness :
  used_bytes [("theme", "dark"); ("stockInventory", "[]")]
  = used_bytes [("stockInventory", "[]"); ("theme", "dark")] /\
  0 <= used_bytes [("theme", "dark"); ("stockInventory", "[]")] /\
  (used_bytes [("theme", "dark"); ("stockInventory", "[]")]) mod 2 = 0.
Proof.
  apply (used_bytes_order_free [("theme", "dark"); ("stockInventory", "[]")]
           [("stockInventory", "[]"); ("theme", "dark")]).
  apply Permutation_swap.
Defined.

(** ** Start-up probe and saving *)

Lemma state_eta (s : State) :
  {| inventory := inventory s; storageAvailable := storageAvailable s;
     localStorage := localStorage s; page := page s |} = s.
Proof. now destruct s. Qed.

Lemma updateStorageInfo_page (s : State) :
  exists evs, page (exec updateStorageInfo s) = page s ++ evs.
Proof.
  unfold exec. destruct (storageAvailable s) eqn:Ha.
  - rewrite (updateStorageInfo_available s Ha). simpl.
    destruct (Qgtb _ 85); simpl.
    + rewrite <- app_assoc. eexists. reflexivity.
    + eexists. reflexivity.
  - rewrite (updateStorageInfo_unavailable s Ha). simpl. eexists. reflexivity.
Qed.

(** The availability probe never throws; it answers whether the store
    took the test write; it leaves the collection, the flag and the page
    alone; and of the store it changes at most the entry of the test key,
    which is gone afterwards if the write was taken: a store without that
    key is exactly as before. *)
Theorem checkStorageAvailability_probe (P : Platform) (s : State) :
  result (checkStorageAvailability P) s
  = Ret (bool_decide (setItem_fault P (localStorage s)
                        "__storage_test__" "__storage_test__" = None)) /\
  inventory (exec (checkStorageAvailability P) s) = inventory s /\
  storageAvailable (exec (checkStorageAvailability P) s) = storageAvailable s /\
  page (exec (checkStorageAvailability P) s) = page s /\
  (forall key, key <> "__storage_test__" ->
     store_get key (localStorage (exec (checkStorageAvailability P) s))
     = store_get key (localStorage s)) /\
  (store_get "__storage_test__" (localStorage s) = None ->
   exec (checkStorageAvailability P) s = s).
Proof.
  unfold checkStorageAvailability, localStorage_setItem, localStorage_removeItem.
  run_m.
  destruct (setItem_fault P (localStorage s) "__storage_test__" "__storage_test__")
    as [e|] eqn:Hf; simpl.
  - repeat split; auto.
  - rewrite store_remove_put. repeat split; auto.
    + intros key Hkey. now apply store_get_remove_ne.
    + intros Habs. rewrite (store_remove_absent _ _ Habs).
      unfold set_localStorage. simpl. apply state_eta.
Qed.

Lemma checkStorageAvailability_probe_witness :
  exec (checkStorageAvailability (sample_browser 4096))
    (initial [("stockInventory", "[]")])
  = initial [("stockInventory", "[]")] /\
  store_get "stockInventory"
    (localStorage (exec (checkStorageAvailability (sample_browser 4096))
                     (initial [("stockInventory", "[]"); ("__storage_test__", "x")])))
  = Some "[]".
Proof.
  split.
  - apply (checkStorageAvailability_probe (sample_browser 4096)
             (initial [("stockInventory", "[]")])). reflexivity.
  - destruct (checkStorageAvailability_probe (sample_browser 4096)
                (initial [("stockInventory", "[]"); ("__storage_test__", "x")]))
      as (_ & _ & _ & _ & Hother & _).
    rewrite (Hother "stockInventory"); [reflexivity|discriminate].
Defined.

Lemma saveInventory_blob (P : Platform) (s : State) :
  storageAvailable s = true ->
  setItem_fault P (localStorage s) STORAGE_KEY (JSON_stringify P (inventory s)) = None ->
  inventory (exec (saveInventory P) s) = inventory s /\
  store_get STORAGE_KEY (localStorage (exec (saveInventory P) s))
  = Some (JSON_stringify P (inventory s)).
Proof.
  intros Ha Hf. destruct (saveInventory_frame P s) as (_ & Hinv & _).
  split; [exact Hinv|].
  unfold exec. rewrite (saveInventory_written P s Ha Hf). simpl.
  match goal with |- context [exec updateStorageInfo ?t] =>
    destruct (updateStorageInfo_frame t) as (_ & _ & _ & ->) end.
  apply store_get_put_eq.
Qed.

(** A save that the store takes: afterwards the entry under the storage key
    is the serialisation of the collection, every other entry is as before,
    the keys are still pairwise distinct, the collection is untouched, and
    the page is shown the status 'Data saved'. *)
Theorem saveInventory_persists (P : Platform) (s : State) :
  storageAvailable s = true ->
  setItem_fault P (localStorage s) STORAGE_KEY (JSON_stringify P (inventory s)) = None ->
  result (saveInventory P) s = Ret tt /\
  inventory (exec (saveInventory P) s) = inventory s /\
  store_get STORAGE_KEY (localStorage (exec (saveInventory P) s))
  = Some (JSON_stringify P (inventory s)) /\
  (forall key, key <> STORAGE_KEY ->
     store_get key (localStorage (exec (saveInventory P) s))
     = store_get key (localStorage s)) /\
  (store_wf (localStorage s) -> store_wf (localStorage (exec (saveInventory P) s))) /\
  StorageStatus green "Data saved" ∈ page (exec (saveInventory P) s).
Proof.
  intros Ha Hf. unfold result, exec. rewrite (saveInventory_written P s Ha Hf). simpl.
  match goal with |- context [exec updateStorageInfo ?t] =>
    destruct (updateStorageInfo_frame t) as (_ & Hi & _ & Hl);
    assert (exists evs, page (exec updateStorageInfo t) = page t ++ evs) as [evs Hp]
  end.
  { apply updateStorageInfo_page. }
  rewrite Hi, Hl, Hp. simpl.
  repeat split.
  - apply store_get_put_eq.
  - intros key Hkey. now apply store_get_put_ne.
  - apply store_put_wf.
  - apply elem_of_app. left. apply elem_of_app. right. apply list_elem_of_here.
Qed.

Lemma saveInventory_persists_witness :
  store_get STORAGE_KEY
    (localStorage (exec (saveInventory (sample_browser 4096))
                     {| inventory := [widget 5]; storageAvailable := true;
                        localStorage := [("theme", "dark")]; page := [] |}))
  = Some (json_items [widget 5]) /\
  store_get "theme"
    (localStorage (exec (saveInventory (sample_browser 4096))
                     {| inventory := [widget 5]; storageAvailable := true;
                        localStorage := [("theme", "dark")]; page := [] |}))
  = Some "dark".
Proof.
  destruct (saveInventory_persists (sample_browser 4096)
              {| inventory := [widget 5]; storageAvailable := true;
                 localStorage := [("theme", "dark")]; page := [] |}
              eq_refl eq_refl) as (_ & _ & Hget & Hother & _).
  split; [exact Hget|].
  rewrite (Hother "theme"); [reflexivity|discriminate].
Defined.

(** ** Reasoning by pre- and postcondition *)

Section Triples.

Context {A B : Type}.

Lemma triple_ret (a : A) (Post : A -> State -> Prop) :
  triple (Post a) (mret a) Post.
Proof. intros s H. exists a, s. split; [reflexivity|exact H]. Qed.

Lemma triple_bind (Pre : State -> Prop) (Mid : A -> State -> Prop)
    (Post : B -> State -> Prop) (m : M A) (k : A -> M B) :
  triple Pre m Mid -> (forall a, triple (Mid a) (k a) Post) ->
  triple Pre (m ≫= k) Post.
Proof.
  intros Hm Hk s Hs. destruct (Hm s Hs) as (a & s' & Hrun & Hmid).
  destruct (Hk a s' Hmid) as (b & s'' & Hrun' & Hpost).
  exists b, s''. split; [|exact Hpost].
  cbv [mbind M_bind bind]. now rewrite Hrun.
Qed.

Lemma triple_weaken (Pre Pre' : State -> Prop) (Post Post' : A -> State -> Prop)
    (m : M A) :
  triple Pre' m Post' -> (forall s, Pre s -> Pre' s) ->
  (forall a s, Post' a s -> Post a s) -> triple Pre m Post.
Proof.
  intros Hm Hpre Hpost s Hs. destruct (Hm s (Hpre s Hs)) as (a & s' & Hrun & H).
  exists a, s'. split; [exact Hrun|now apply Hpost].
Qed.

Lemma triple_gets (f : State -> A) (Post : A -> State -> Prop) :
  triple (fun s => Post (f s) s) (gets f) Post.
Proof. intros s H. exists (f s), s. split; [reflexivity|exact H]. Qed.

Lemma triple_try (Pre : State -> Prop) (Post : A -> State -> Prop)
    (m : M A) (h : JS.Error -> M A) :
  triple Pre m Post -> triple Pre (try_catch m h) Post.
Proof.
  intros Hm s Hs. destruct (Hm s Hs) as (a & s' & Hrun & H).
  exists a, s'. split; [|exact H]. unfold try_catch. now rewrite Hrun.
Qed.

End Triples.

Lemma triple_modify (f : State -> State) (Post : unit -> State -> Prop) :
  triple (fun s => Post tt (f s)) (modify f) Post.
Proof. intros s H. exists tt, (f s). split; [reflexivity|exact H]. Qed.

Lemma triple_notify (I : State -> Prop) (ev : UIEvent) :
  page_blind I -> triple I (notify ev) (fun _ => I).
Proof. intros HI s H. exists tt, (log ev s). split; [reflexivity|now apply HI]. Qed.

Lemma triple_showToast (I : State -> Prop) message type :
  page_blind I -> triple I (showToast message type) (fun _ => I).
Proof. apply triple_notify. Qed.

Lemma triple_showStorageStatus (I : State -> Prop) isAvailable message :
  page_blind I -> triple I (showStorageStatus isAvailable message) (fun _ => I).
Proof. intros HI. unfold showStorageStatus. destruct isAvailable; now apply triple_notify. Qed.

Lemma triple_updateInventoryDisplay (I : State -> Prop) :
  page_blind I -> triple I updateInventoryDisplay (fun _ => I).
Proof.
  intros HI s H. exists tt, (log (InventoryShown (inventory s)) s).
  split; [reflexivity|now apply HI].
Qed.

Lemma triple_updateStorageInfo (I : State -> Prop) :
  page_blind I -> triple I updateStorageInfo (fun _ => I).
Proof.
  intros HI s H. destruct (storageAvailable s) eqn:Ha.
  - rewrite (updateStorageInfo_available s Ha). eexists _, _. split; [reflexivity|].
    destruct (Qgtb _ 85); repeat apply HI; exact H.
  - rewrite (updateStorageInfo_unavailable s Ha). eexists _, _. split; [reflexivity|].
    now apply HI.
Qed.

Lemma triple_settle_ret {A} (a : A) (Post : A -> State -> Prop) :
  triple (Post a) (settle (Ret a)) Post.
Proof. intros s H. exists a, s. split; [reflexivity|exact H]. Qed.

Lemma triple_settle_bind {A B} (a : A) (k : A -> M B)
    (Pre : State -> Prop) (Post : B -> State -> Prop) :
  triple Pre (k a) Post -> triple Pre (settle (Ret a) ≫= k) Post.
Proof. intros H s Hs. exact (H s Hs). Qed.

Lemma triple_try_settle_throw {A B} (e : JS.Error) (k : A -> M B)
    (h : JS.Error -> M B) (Pre : State -> Prop) (Post : B -> State -> Prop) :
  triple Pre (h e) Post -> triple Pre (try_catch (settle (Throw e) ≫= k) h) Post.
Proof. intros H s Hs. exact (H s Hs). Qed.

(** ** Invariants restored by saving *)

Section Restored.

Variable P : Platform.
Variable I : State -> Prop.

Hypothesis I_page_blind : page_blind I.
Hypothesis I_restored : triple (adrift I) (saveInventory P) (fun _ => I).

Lemma adrift_intro s : I s -> adrift I s.
Proof. intros H. exists s. auto. Qed.

Lemma adrift_page_blind : page_blind (adrift I).
Proof. intros ev s (s0 & H & Ha & Hl). exists s0. auto. Qed.

Lemma adrift_set_inventory inv s : adrift I s -> adrift I (set_inventory inv s).
Proof. intros (s0 & H & Ha & Hl). exists s0. auto. Qed.

(** Mutate the collection, then save and tell the page. *)
Lemma triple_mutation {A} (f : State -> list Item) (before : M unit) (after : M A) :
  triple (adrift I) before (fun _ => adrift I) ->
  triple I after (fun _ => I) ->
  triple I (modify (fun s => set_inventory (f s) s);; before;; saveInventory P;; after)
    (fun _ => I).
Proof.
  intros Hbefore Hafter.
  eapply triple_bind with (Mid := fun _ => adrift I).
  { intros s Hs. exists tt, (set_inventory (f s) s). split; [reflexivity|].
    now apply adrift_set_inventory, adrift_intro. }
  intros ?. eapply triple_bind; [exact Hbefore|]. intros ?.
  eapply triple_bind; [exact I_restored|]. intros ?. exact Hafter.
Qed.

Lemma triple_updateItemQuantity target change :
  selector_accepted P target ->
  triple I (updateItemQuantity P target change) (fun _ => I).
Proof.
  intros Hacc s Hs.
  destruct (findIndex (fun it => String.eqb (id it) target) (inventory s))
    as [index|] eqn:Hf.
  - destruct (findIndex_Some _ _ _ Hf) as (pre & item & post & Hinv & Hlen & _).
    assert (inventory s !! index = Some item) as Hi.
    { rewrite Hinv. now apply list_lookup_middle. }
    destruct (Hacc (set_inventory
                      (<[index := set_quantity
                                    (Z.max 0 (JS.add (quantity item) change)) item]>
                         (inventory s)) s)) as [found Hfound].
    destruct (updateItemQuantity_accepted P s target change _ _ found Hf Hi Hfound)
      as (t & _ & Hav & Hls & Hrun).
    destruct (I_restored t) as ([] & s' & Hsave & Hpost).
    { exists s. auto. }
    exists JS.VUndefined, s'. split; [|exact Hpost].
    rewrite Hrun. unfold exec. now rewrite Hsave.
  - rewrite (updateItemQuantity_absent P s target change Hf). eauto.
Qed.

Lemma triple_deleteItem target :
  triple I (deleteItem P target) (fun _ => I).
Proof.
  intros s Hs.
  destruct (findIndex (fun it => String.eqb (id it) target) (inventory s))
    as [index|] eqn:Hf.
  - destruct (triple_mutation
                (fun s => delete index (inventory s)) (mret tt)
                (updateInventoryDisplay;; showToast "Item deleted" SevInfo;;
                 mret JS.VUndefined)) with (s := s) as (v & s' & Hrun & Hpost).
    + apply (triple_ret tt (fun _ => adrift I)).
    + eapply triple_bind; [now apply triple_updateInventoryDisplay|]. intros ?.
      eapply triple_bind; [now apply triple_showToast|]. intros ?.
      apply (triple_ret JS.VUndefined (fun _ => I)).
    + exact Hs.
    + exists v, s'. split; [|exact Hpost]. rewrite <- Hrun.
      unfold deleteItem. run_m. rewrite Hf. reflexivity.
  - rewrite (deleteItem_absent P s target Hf). eauto.
Qed.

Lemma triple_clearInventory : triple I (clearInventory P) (fun _ => I).
Proof.
  intros s Hs.
  destruct (triple_mutation (fun _ => []) (mret tt)
              (updateInventoryDisplay;;
               showToast "All inventory data cleared" SevInfo))
    with (s := s) as (v & s' & Hrun & Hpost).
  - apply (triple_ret tt (fun _ => adrift I)).
  - eapply triple_bind; [now apply triple_updateInventoryDisplay|]. intros ?.
    now apply triple_showToast.
  - exact Hs.
  - exists v, s'. split; [|exact Hpost]. rewrite <- Hrun. reflexivity.
Qed.

Lemma triple_addItem nameValue quantityValue processed newId now :
  triple I (addItem P nameValue quantityValue processed newId now) (fun _ => I).
Proof.
  unfold addItem.
  destruct (JS.trim nameValue) as [|c r]; [apply (triple_ret tt (fun _ => I))|].
  destruct (JS.parseInt quantityValue) as [q|]; [|apply (triple_ret tt (fun _ => I))].
  eapply triple_bind; [now apply triple_notify|]. intros ?.
  destruct processed as [imageData|e].
  - apply triple_try.
    apply triple_settle_bind.
    intros s Hs.
    destruct (triple_mutation
                (fun s => inventory s ++
                          [{| id := newId; name := String c r; quantity := q;
                              image := imageData; createdAt := now |}])
                (mret tt)
                (updateInventoryDisplay;; notify FormReset;; notify LoadingHidden;;
                 showToast "Item added successfully" SevSuccess))
      with (s := s) as (v & s' & Hrun & Hpost).
    + apply (triple_ret tt (fun _ => adrift I)).
    + eapply triple_bind; [now apply triple_updateInventoryDisplay|]. intros ?.
      eapply triple_bind; [now apply triple_notify|]. intros ?.
      eapply triple_bind; [now apply triple_notify|]. intros ?.
      now apply triple_showToast.
    + exact Hs.
    + exists v, s'. split; [|exact Hpost]. rewrite <- Hrun. reflexivity.
  - apply triple_try_settle_throw.
    eapply triple_bind; [now apply triple_notify|]. intros ?.
    now apply triple_showToast.
Qed.

Lemma kept_by_step op s :
  match op with
  | OpAdjust target _ => selector_accepted P target
  | _ => True
  end ->
  I s -> I (exec (step P op) s).
Proof.
  intros Hop Hs.
  assert (triple I (step P op) (fun _ => I)) as Hstep.
  { destruct op as [nameValue quantityValue processed newId now|target change|target];
      simpl.
    - apply triple_addItem.
    - eapply triple_bind; [now apply triple_updateItemQuantity|]. intros ?.
      apply (triple_ret tt (fun _ => I)).
    - eapply triple_bind; [apply triple_deleteItem|]. intros ?.
      apply (triple_ret tt (fun _ => I)). }
  destruct (Hstep s Hs) as (v & s' & Hrun & Hpost).
  unfold exec. now rewrite Hrun.
Qed.

Lemma kept_by_run ops : adjusts_accepted P ops -> forall s, I s -> I (exec (run P ops) s).
Proof.
  induction ops as [|op ops IH]; intros Hops s Hs; [exact Hs|].
  apply Forall_cons in Hops as [Hop Hops].
  rewrite exec_run_cons. apply IH; [exact Hops|]. now apply kept_by_step.
Qed.

End Restored.

(** ** Every mutation is immediately durable, unless a handler throws *)

(** While the store is available and takes every write, and the document
    accepts the selector of every id whose quantity is changed, the
    persisted blob follows the collection: from a state whose blob is the
    serialisation of the collection, every sequence of adds, quantity
    changes and removals ends in such a state again, with the flag still
    set. *)
Theorem run_keeps_synced (P : Platform) (ops : list Op) (s : State) :
  never_refuses P ->
  adjusts_accepted P ops ->
  storageAvailable s = true ->
  synced P s ->
  storageAvailable (exec (run P ops) s) = true /\
  synced P (exec (run P ops) s).
Proof.
  intros Hroomy Hacc Ha Hsync.
  apply (kept_by_run P (fun s => storageAvailable s = true /\ synced P s)).
  - intros ev t [H1 H2]. split; assumption.
  - intros t (t0 & [Ht0 _] & Hav & _).
    rewrite <- Hav in Ht0.
    destruct (saveInventory_blob P t Ht0 (Hroomy _ _ _)) as (Hinv & Hget).
    destruct (saveInventory_frame P t) as (Hr & _ & Hav').
    unfold result, exec in *. destruct (saveInventory P t) as [o t']. simpl in *.
    subst o. exists tt, t'. split; [reflexivity|]. split; [congruence|].
    unfold synced. now rewrite Hinv.
  - exact Hacc.
  - split; assumption.
Qed.

Lemma run_keeps_synced_witness :
  synced roomy_browser
    (exec (run roomy_browser
             [OpAdd "Widget" "5" (Ret None) "k1" "2024-01-01T00:00:00.000Z";
              OpAdjust "k1" (-2);
              OpRemove "k9"])
       (ready [("stockInventory", "[]")])) /\
  inventory
    (exec (run roomy_browser
             [OpAdd "Widget" "5" (Ret None) "k1" "2024-01-01T00:00:00.000Z";
              OpAdjust "k1" (-2);
              OpRemove "k9"])
       (ready [("stockInventory", "[]")]))
  = [widget 3].
Proof.
  split; [|reflexivity].
  apply (run_keeps_synced roomy_browser
           [OpAdd "Widget" "5" (Ret None) "k1" "2024-01-01T00:00:00.000Z";
            OpAdjust "k1" (-2);
            OpRemove "k9"]
           (ready [("stockInventory", "[]")])).
  - intros ls key value. reflexivity.
  - apply Forall_cons. split; [exact I|].
    apply Forall_cons. split; [intros t; eexists; reflexivity|].
    apply Forall_cons. split; [exact I|constructor].
  - reflexivity.
  - reflexivity.
Defined.

(** The limit of that: when the document rejects the selector made from
    the id of an item that is there, [updateItemQuantity] throws that
    error with the new quantity (of a finite sum) already written in memory
    and nothing saved or shown: the store and the page are as before, so
    the persisted blob no longer follows the collection. *)
Theorem updateItemQuantity_throws_unsaved (P : Platform) (s : State)
    (target : string) (change : Z) (pre post : list Item) (item : Item) (e : JS.Error) :
  inventory s = pre ++ item :: post ->
  (forall x, x ∈ pre -> id x <> target) ->
  id item = target ->
  JS.add (quantity item) change < 2 ^ 1024 ->
  (forall t, inventory t
             = pre ++ {| id := id item; name := name item;
                         quantity := Z.max 0 (JS.add (quantity item) change);
                         image := image item; createdAt := createdAt item |} :: post ->
             quantity_element P t target = Throw e) ->
  updateItemQuantity P target change s
  = (Throw e,
     {| inventory :=
          pre ++ {| id := id item; name := name item;
                    quantity := Z.max 0 (JS.add (quantity item) change);
                    image := image item; createdAt := createdAt item |} :: post;
        storageAvailable := storageAvailable s;
        localStorage := localStorage s;
        page := page s |}).
Proof.
  intros Hinv Hpre Hid _ Hrej.
  assert (findIndex (fun it => String.eqb (id it) target) (inventory s)
          = Some (length pre)) as Hf.
  { rewrite Hinv. apply findIndex_first; [now apply id_eqb_false|].
    now apply String.eqb_eq. }
  assert (inventory s !! length pre = Some item) as Hi.
  { rewrite Hinv. apply list_lookup_middle. reflexivity. }
  assert (<[length pre := set_quantity (Z.max 0 (JS.add (quantity item) change)) item]>
            (inventory s)
          = pre ++ {| id := id item; name := name item;
                      quantity := Z.max 0 (JS.add (quantity item) change);
                      image := image item; createdAt := createdAt item |} :: post)
    as Hnew.
  { rewrite Hinv, insert_app_r_alt by lia. now rewrite Nat.sub_diag. }
  rewrite (updateItemQuantity_rejected P s target change _ _ e Hf Hi).
  - unfold set_inventory. now rewrite Hnew.
  - apply Hrej. simpl. exact Hnew.
Qed.

Lemma updateItemQuantity_throws_unsaved_witness :
  updateItemQuantity roomy_browser "k 1" 1
    {| inventory := [mkItem "k 1" "Odd" 4 None "2024-01-01T00:00:00.000Z"];
       storageAvailable := true;
       localStorage := [("stockInventory", "old")]; page := [] |}
  = (Throw selector_error,
     {| inventory := [mkItem "k 1" "Odd" 5 None "2024-01-01T00:00:00.000Z"];
        storageAvailable := true;
        localStorage := [("stockInventory", "old")]; page := [] |}).
Proof.
  apply (updateItemQuantity_throws_unsaved roomy_browser
           {| inventory := [mkItem "k 1" "Odd" 4 None "2024-01-01T00:00:00.000Z"];
              storageAvailable := true;
              localStorage := [("stockInventory", "old")]; page := [] |}
           "k 1" 1 [] [] (mkItem "k 1" "Odd" 4 None "2024-01-01T00:00:00.000Z")
           selector_error).
  - reflexivity.
  - intros x Hx. inversion Hx.
  - reflexivity.
  - reflexivity.
  - intros t _. reflexivity.
Defined.

Lemma updateItemQuantity_memory_only (P : Platform) (s : State) target change :
  storageAvailable s = false ->
  storageAvailable (exec (updateItemQuantity P target change) s) = false /\
  localStorage (exec (updateItemQuantity P target change) s) = localStorage s.
Proof.
  intros Ha.
  destruct (findIndex (fun it => String.eqb (id it) target) (inventory s))
    as [index|] eqn:Hf.
  - destruct (findIndex_Some _ _ _ Hf) as (pre & item & post & Hinv & Hlen & _).
    assert (inventory s !! index = Some item) as Hi.
    { rewrite Hinv. now apply list_lookup_middle. }
    destruct (quantity_element P
                (set_inventory
                   (<[index := set_quantity
                                 (Z.max 0 (JS.add (quantity item) change)) item]>
                      (inventory s)) s) target) as [found|e] eqn:Hq.
    + destruct (updateItemQuantity_accepted P s target change _ _ found Hf Hi Hq)
        as (t & _ & Hav & Hls & Hrun).
      unfold exec at 1 2. rewrite Hrun. simpl.
      assert (storageAvailable t = false) as Ht by congruence.
      unfold exec. rewrite (saveInventory_unavailable P t Ht). simpl.
      split; congruence.
    + unfold exec. rewrite (updateItemQuantity_rejected P s target change _ _ e Hf Hi Hq).
      simpl. auto.
  - unfold exec. rewrite (updateItemQuantity_absent P s target change Hf). auto.
Qed.

(** While the store is flagged unavailable the program runs in memory only:
    no sequence of adds, quantity changes and removals touches the store or
    changes the flag, whether its handlers return or throw. *)
Theorem run_memory_only (P : Platform) (ops : list Op) (s : State) :
  storageAvailable s = false ->
  storageAvailable (exec (run P ops) s) = false /\
  localStorage (exec (run P ops) s) = localStorage s.
Proof.
  revert s. induction ops as [|op ops IH]; intros s Ha; [auto|].
  rewrite exec_run_cons.
  assert (storageAvailable (exec (step P op) s) = false /\
          localStorage (exec (step P op) s) = localStorage s) as [Ha' Hls].
  { destruct op as [nameValue quantityValue processed newId now|target change|target].
    - apply (kept_by_step P (fun t => storageAvailable t = false /\
                                      localStorage t = localStorage s)).
      + intros ev t [H1 H2]. split; assumption.
      + intros t (t0 & [Ht0 Hl0] & Hav & Hl).
        rewrite <- Hav in Ht0. rewrite (saveInventory_unavailable P t Ht0).
        exists tt, t. split; [reflexivity|]. split; congruence.
      + exact I.
      + split; [assumption|reflexivity].
    - simpl. rewrite exec_then_ret. now apply updateItemQuantity_memory_only.
    - apply (kept_by_step P (fun t => storageAvailable t = false /\
                                      localStorage t = localStorage s)).
      + intros ev t [H1 H2]. split; assumption.
      + intros t (t0 & [Ht0 Hl0] & Hav & Hl).
        rewrite <- Hav in Ht0. rewrite (saveInventory_unavailable P t Ht0).
        exists tt, t. split; [reflexivity|]. split; congruence.
      + exact I.
      + split; [assumption|reflexivity]. }
  destruct (IH _ Ha') as [Hflag Hstore]. split; [exact Hflag|congruence].
Qed.

Lemma run_memory_only_witness :
  localStorage
    (exec (run (sample_browser 4096)
             [OpAdd "Widget" "5" (Ret None) "k 1" "2024-01-01T00:00:00.000Z";
              OpAdjust "k 1" 1;
              OpRemove "k 1"])
       (initial [("stockInventory", "[]")]))
  = [("stockInventory", "[]")].
Proof.
  apply (run_memory_only (sample_browser 4096)
           [OpAdd "Widget" "5" (Ret None) "k 1" "2024-01-01T00:00:00.000Z";
            OpAdjust "k 1" 1;
            OpRemove "k 1"]
           (initial [("stockInventory", "[]")])).
  reflexivity.
Defined.

(** Clearing never throws and always empties the collection in memory; the
    last thing shown is the notification that the data was cleared.  The
    store follows only if it is available and takes the write: then the blob
    is the serialisation of the empty collection; if the write is refused,
    or the store is unavailable, the store keeps what it held. *)
Theorem clearInventory_clears (P : Platform) (s : State) :
  result (clearInventory P) s = Ret tt /\
  inventory (exec (clearInventory P) s) = [] /\
  last (page (exec (clearInventory P) s))
  = Some (Toast "All inventory data cleared" SevInfo) /\
  (storageAvailable s = true ->
   setItem_fault P (localStorage s) STORAGE_KEY (JSON_stringify P []) = None ->
   store_get STORAGE_KEY (localStorage (exec (clearInventory P) s))
   = Some (JSON_stringify P [])) /\
  (storageAvailable s = false \/
   setItem_fault P (localStorage s) STORAGE_KEY (JSON_stringify P []) <> None ->
   localStorage (exec (clearInventory P) s) = localStorage s).
Proof.
  unfold clearInventory. run_m. simpl.
  pose (t := set_inventory [] s).
  destruct (saveInventory_frame P t) as (Hr & Hinv & _).
  assert (localStorage (exec (saveInventory P) t)
          = match storageAvailable s,
                  setItem_fault P (localStorage s) STORAGE_KEY (JSON_stringify P []) with
            | true, None => store_put STORAGE_KEY (JSON_stringify P []) (localStorage s)
            | _, _ => localStorage s
            end) as Hls.
  { unfold exec. destruct (storageAvailable s) eqn:Ha.
    - destruct (setItem_fault P (localStorage s) STORAGE_KEY (JSON_stringify P []))
        as [e|] eqn:Hf.
      + rewrite (saveInventory_refused P t e Ha Hf). simpl.
        now destruct (is_quota_error e).
      + rewrite (saveInventory_written P t Ha Hf). simpl.
        match goal with |- context [exec updateStorageInfo ?u] =>
          destruct (updateStorageInfo_frame u) as (_ & _ & _ & ->) end.
        reflexivity.
    - now rewrite (saveInventory_unavailable P t Ha). }
  unfold result, exec in *. fold t. destruct (saveInventory P t) as [o t'].
  simpl in *. subst o. simpl. rewrite Hinv, Hls, last_snoc.
  repeat split.
  - intros -> ->. apply store_get_put_eq.
  - intros [->|Hf]; [reflexivity|].
    destruct (storageAvailable s); [|reflexivity].
    now destruct (setItem_fault P (localStorage s) STORAGE_KEY (JSON_stringify P [])).
Qed.

Lemma clearInventory_clears_witness :
  store_get STORAGE_KEY
    (localStorage (exec (clearInventory (sample_browser 4096)) (stocked [widget 5])))
  = Some "[]" /\
  localStorage (exec (clearInventory (sample_browser 4096))
                  {| inventory := [widget 5]; storageAvailable := false;
                     localStorage := [("stockInventory", "old")]; page := [] |})
  = [("stockInventory", "old")].
Proof.
  split.
  - apply (clearInventory_clears (sample_browser 4096) (stocked [widget 5]));
      reflexivity.
  - apply (clearInventory_clears (sample_browser 4096)
             {| inventory := [widget 5]; storageAvailable := false;
                localStorage := [("stockInventory", "old")]; page := [] |}).
    left. reflexivity.
Defined.

(** ** Thresholds of the capacity display, in bytes *)

Lemma percentage_gtb (s : State) (c : Z) :
  storageAvailable s = true ->
  Qgtb (percentage (getStorageInfo s)) (inject_Z c)
  = Z.ltb (c * 5242880) (used_bytes (localStorage s) * 100).
Proof.
  intros Ha. unfold getStorageInfo. rewrite Ha. simpl.
  unfold Qgtb, Qle_bool, Qdiv, Qmult, Qinv, inject_Z. simpl.
  rewrite <- Z.ltb_antisym.
  match goal with |- Z.ltb ?a ?b = Z.ltb ?c ?d =>
    destruct (Z.ltb_spec a b); destruct (Z.ltb_spec c d) end;
    try reflexivity; lia.
Qed.

(** What [updateStorageInfo] shows, by bytes in use.  With the store flagged
    unavailable it hides the panel and never warns.  Otherwise it shows the
    bytes in use against 5242880, a bar between 0 and 100 wide that is red
    above 4718592 bytes, yellow above 3670016 and blue up to there, and it
    adds the low-storage warning exactly when more than 4456448 bytes are in
    use. *)
Theorem updateStorageInfo_thresholds (s : State) :
  exists width : Q,
    (0 <= width <= 100)%Q /\
    page (exec updateStorageInfo s)
    = page s ++
      if storageAvailable s then
        StorageInfoShown (used_bytes (localStorage s)) 5242880 width
          (bar_of_bytes (used_bytes (localStorage s)))
        :: (if Z.ltb 4456448 (used_bytes (localStorage s))
            then [Toast low_storage_warning SevWarning] else [])
      else [StorageInfoHidden].
Proof.
  destruct (storageAvailable s) eqn:Ha.
  - pose proof (percentage_gtb s 100 Ha) as H100.
    pose proof (percentage_gtb s 90 Ha) as H90.
    pose proof (percentage_gtb s 85 Ha) as H85.
    pose proof (percentage_gtb s 70 Ha) as H70.
    change (inject_Z 100) with 100%Q in H100. change (inject_Z 90) with 90%Q in H90.
    change (inject_Z 85) with 85%Q in H85. change (inject_Z 70) with 70%Q in H70.
    pose proof (used_bytes_nonneg (localStorage s)) as Hnonneg.
    set (u := used_bytes (localStorage s)) in *.
    exists (if Qgtb (percentage (getStorageInfo s)) 100 then 100%Q
            else percentage (getStorageInfo s)).
    split.
    + destruct (Qgtb (percentage (getStorageInfo s)) 100) eqn:Hg.
      * split; discriminate.
      * unfold Qgtb in Hg. apply negb_false_iff, Qle_bool_iff in Hg.
        split; [|exact Hg].
        unfold getStorageInfo. rewrite Ha. simpl. fold u.
        unfold Qle, Qdiv, Qmult, Qinv, inject_Z. simpl. lia.
    + unfold exec. rewrite (updateStorageInfo_available s Ha). simpl.
      rewrite H85, H90, H70.
      assert (used (getStorageInfo s) = u /\ quota (getStorageInfo s) = 5242880)
        as [-> ->].
      { unfold getStorageInfo. rewrite Ha. split; reflexivity. }
      assert ((if Z.ltb (90 * 5242880) (u * 100) then bar_red
               else if Z.ltb (70 * 5242880) (u * 100) then bar_yellow else bar_blue)
              = bar_of_bytes u) as ->.
      { unfold bar_of_bytes.
        destruct (Z.ltb_spec (90 * 5242880) (u * 100));
          destruct (Z.ltb_spec 4718592 u); try lia; try reflexivity.
        destruct (Z.ltb_spec (70 * 5242880) (u * 100));
          destruct (Z.ltb_spec 3670016 u); try lia; reflexivity. }
      assert (Z.ltb (85 * 5242880) (u * 100) = Z.ltb 4456448 u) as ->.
      { destruct (Z.ltb_spec (85 * 5242880) (u * 100));
          destruct (Z.ltb_spec 4456448 u); try lia; reflexivity. }
      destruct (Z.ltb 4456448 u); simpl; rewrite <- ?app_assoc; reflexivity.
  - exists 0%Q. split; [split; discriminate|].
    unfold exec. now rewrite (updateStorageInfo_unavailable s Ha).
Qed.

(** ** Retryable fetch: outcome and cost *)

Section RetryOutcome.

Variable fetch : nat -> FetchOutcome.
Variable maxRetries : nat.

Lemma retry_loop_shape remaining : forall attempt lastError,
  (exists k response,
     (k < remaining)%nat /\
     try_fetch (fetch (attempt + k)) = Ret response /\
     (forall j, (j < k)%nat -> fails fetch (attempt + j)) /\
     retry_loop fetch maxRetries remaining attempt lastError
     = (failed_attempts attempt k ++ [Attempt (attempt + k)], Ret response)) \/
  ((forall j, (j < remaining)%nat -> fails fetch (attempt + j)) /\
   retry_loop fetch maxRetries remaining attempt lastError
   = (failed_attempts attempt remaining,
      Throw (JS.new_Error
               ("Failed after " +:+ JS.show_nat maxRetries +:+ " attempts: " +:+
                match remaining with
                | O => match lastError with
                       | Some e => JS.err_message e
                       | None => "Unknown error"
                       end
                | S m => failure_message fetch (attempt + m)
                end)))).
Proof.
  induction remaining as [|r IH]; intros attempt lastError.
  - right. split; [intros j Hj; lia|reflexivity].
  - simpl retry_loop. destruct (try_fetch (fetch attempt)) as [response|e] eqn:Hhere.
    + left. exists O, response. rewrite Nat.add_0_r.
      repeat split; [lia|exact Hhere|intros j Hj; lia].
    + destruct (IH (S attempt) (Some e))
        as [(k & response & Hk & Hok & Hbefore & ->)|[Hall ->]].
      * left. exists (S k), response.
        replace (attempt + S k)%nat with (S attempt + k)%nat by lia.
        repeat split; [lia|exact Hok|].
        intros [|j] Hj.
        -- rewrite Nat.add_0_r. now exists e.
        -- replace (attempt + S j)%nat with (S attempt + j)%nat by lia.
           apply Hbefore. lia.
      * right. split.
        -- intros [|j] Hj.
           ++ rewrite Nat.add_0_r. now exists e.
           ++ replace (attempt + S j)%nat with (S attempt + j)%nat by lia.
              apply Hall. lia.
        -- unfold failed_attempts. simpl. do 4 f_equal.
           destruct r as [|m].
           ++ unfold failure_message. now rewrite Nat.add_0_r, Hhere.
           ++ now replace (attempt + S m)%nat with (S attempt + m)%nat by lia.
Qed.

End RetryOutcome.



Lemma fetchWithRetry_three_fail (fetch : nat -> FetchOutcome) :
  (forall j, (j < 3)%nat -> fails fetch j) ->
  fetchWithRetry fetch 3
  = (failed_attempts 0 3,
     Throw (JS.new_Error ("Failed after 3 attempts: " +:+ failure_message fetch 2))).
Proof.
  intros Hall. unfold fetchWithRetry.
  destruct (retry_loop_shape fetch 3 3 0 None) as [(k & r & Hk & Hok & _)|[_ ->]].
  - destruct (Hall k Hk) as [e He]. change (0 + k)%nat with k in Hok. congruence.
  - reflexivity.
Qed.

(** When each of the [maxRetries] requests fails, the call issues them all,
    waits after each of them, the last included, and throws an error whose
    message gives [maxRetries] and the message of the last failure; with
    [maxRetries = 0] it issues nothing and the message reads 'Unknown
    error'.  An answer with a status that is not ok counts as a failure
    with the message 'HTTP error! Status: ' and the status. *)
Theorem fetchWithRetry_exhausts (fetch : nat -> FetchOutcome) (maxRetries : nat) :
  (forall j, (j < maxRetries)%nat -> fails fetch j) ->
  fetchWithRetry fetch maxRetries
  = (failed_attempts 0 maxRetries,
     Throw (JS.new_Error
              ("Failed after " +:+ JS.show_nat maxRetries +:+ " attempts: " +:+
               match maxRetries with
               | O => "Unknown error"
               | S m => failure_message fetch m
               end))) /\
  (forall j r, fetch j = FetchResolved r -> ok r = false ->
     failure_message fetch j = "HTTP error! Status: " +:+ JS.show_nat (status r)).
Proof.
  intros Hall. split.
  - unfold fetchWithRetry.
    destruct (retry_loop_shape fetch maxRetries maxRetries 0 None)
      as [(k & r & Hk & Hok & _)|[_ ->]].
    + destruct (Hall k Hk) as [e He]. change (0 + k)%nat with k in Hok. congruence.
    + reflexivity.
  - intros j r Hres Hflag. unfold failure_message. rewrite Hres. simpl.
    now rewrite Hflag.
Qed.

Lemma fetchWithRetry_exhausts_witness :
  fetchWithRetry
    (fun _ => FetchResolved {| ok := false; status := 503; body := JS.VNull |}) 2
  = ([Attempt 0; Wait 100; Attempt 1; Wait 200]%nat,
     Throw (JS.new_Error "Failed after 2 attempts: HTTP error! Status: 503")).
Proof.
  apply (fetchWithRetry_exhausts
           (fun _ => FetchResolved {| ok := false; status := 503; body := JS.VNull |}) 2).
  intros j _. eexists. reflexivity.
Defined.

Lemma backoff_delay_bounds (k : nat) : 100 <= backoff_delay k <= 2000.
Proof.
  unfold backoff_delay.
  assert (0 < 2 ^ Z.of_nat k) by (apply Z.pow_pos_nonneg; lia). lia.
Qed.

Lemma waits_failed_attempts from k :
  waits (failed_attempts from k) = map backoff_delay (seq from k).
Proof.
  revert from. induction k as [|k IH]; intros from; [reflexivity|].
  unfold failed_attempts, waits in *. simpl. now rewrite IH.
Qed.

(** The cost of a call: at most [maxRetries] waits, which are the first
    entries of the table 100, 200, 400, 800, 1600, 2000, 2000, ...; each
    lies between 100 and 2000 ms, and together they come to at most 2000 ms
    times [maxRetries]. *)
Theorem fetchWithRetry_waits (fetch : nat -> FetchOutcome) (maxRetries : nat) :
  exists k,
    (k <= maxRetries)%nat /\
    waits (fst (fetchWithRetry fetch maxRetries)) = map backoff_delay (seq 0 k) /\
    Forall (fun ms => 100 <= ms <= 2000) (waits (fst (fetchWithRetry fetch maxRetries))) /\
    total_wait (fst (fetchWithRetry fetch maxRetries)) <= 2000 * Z.of_nat maxRetries.
Proof.
  assert (forall k, Forall (fun ms => 100 <= ms <= 2000) (map backoff_delay (seq 0 k)))
    as Hbounds.
  { intros k. apply Forall_forall. intros ms Hin.
    apply list_elem_of_In, in_map_iff in Hin as (j & <- & _).
    apply backoff_delay_bounds. }
  assert (forall l, Forall (fun ms => 100 <= ms <= 2000) l ->
                    foldr Z.add 0 l <= 2000 * Z.of_nat (length l)) as Hsum.
  { induction 1 as [|ms l Hms _ IH]; simpl foldr; simpl length; lia. }
  assert (exists k, (k <= maxRetries)%nat /\
            waits (fst (fetchWithRetry fetch maxRetries)) = map backoff_delay (seq 0 k))
    as (k & Hk & Hw).
  { unfold fetchWithRetry.
    destruct (retry_loop_shape fetch maxRetries maxRetries 0 None)
      as [(k & r & Hk & _ & _ & ->)|[_ ->]]; simpl.
    - exists k. split; [lia|]. unfold waits. rewrite omap_app. simpl.
      rewrite app_nil_r. apply waits_failed_attempts.
    - exists maxRetries. split; [lia|]. apply waits_failed_attempts. }
  exists k. split; [exact Hk|]. split; [exact Hw|]. split.
  - rewrite Hw. apply Hbounds.
  - unfold total_wait. rewrite Hw.
    specialize (Hsum _ (Hbounds k)). rewrite length_map, length_seq in Hsum. lia.
Qed.


(** ** Cloud sync *)

(** Whatever the network and the server do, [syncWithCloud] does not throw,
    leaves the collection, the availability flag and the store as they
    were, and shows exactly two notifications: 'Syncing with cloud...' and
    then either the success message or an error that starts with 'Cloud
    sync failed: '.  It makes one call of [fetchWithRetry] with the default
    three attempts. *)
Theorem syncWithCloud_contained (P : Platform) (E : Engine) (s : State) :
  exists verdict,
    syncWithCloud P E s
    = (Ret (fst (fetchWithRetry (fetch_calls E (sync_request P (inventory s))) 3)),
       {| inventory := inventory s;
          storageAvailable := storageAvailable s;
          localStorage := localStorage s;
          page := page s ++ [Toast "Syncing with cloud..." SevInfo; verdict] |}) /\
    (verdict = Toast "Cloud sync successful!" SevSuccess \/
     exists reason, verdict = Toast ("Cloud sync failed: " +:+ reason) SevError).
Proof.
  unfold syncWithCloud. run_m. simpl. change MAX_RETRIES with 3%nat.
  destruct (fetchWithRetry (fetch_calls E (sync_request P (inventory s))) 3)
    as [trace [response|e]]; simpl.
  - destruct (response_json E response) as [data|e]; simpl.
    + destruct (get_property E data "success") as [success|e] eqn:Hs; simpl.
      * destruct (truthy success); simpl.
        -- eexists. unfold log. simpl. rewrite <- app_assoc.
           split; [reflexivity|]. now left.
        -- destruct (get_property E data "message") as [message|e]; simpl;
             eexists; unfold log; simpl; rewrite <- app_assoc;
             (split; [reflexivity|]); right; eauto.
      * eexists. unfold log. simpl. rewrite <- app_assoc.
        split; [reflexivity|]. right. eauto.
    + eexists. unfold log. simpl. rewrite <- app_assoc.
      split; [reflexivity|]. right. eauto.
  - eexists. unfold log. simpl. rewrite <- app_assoc.
    split; [reflexivity|]. right. eauto.
Qed.

(** What the second notification says.  If all three requests fail it
    reports 'Failed after 3 attempts: ' and the message of the third
    failure.  If a response arrives whose body is an object, the sync
    succeeds exactly when the [success] field is truthy; otherwise the
    report carries the server's [message] field when that is truthy, and
    'Unknown error' when it is not. *)
Theorem syncWithCloud_reports (P : Platform) (E : Engine) (s : State) :
  ((forall j, (j < 3)%nat ->
      fails (fetch_calls E (sync_request P (inventory s))) j) ->
   page (exec (syncWithCloud P E) s)
   = page s ++
     [Toast "Syncing with cloud..." SevInfo;
      Toast ("Cloud sync failed: Failed after 3 attempts: " +:+
             failure_message (fetch_calls E (sync_request P (inventory s))) 2)
        SevError]) /\
  (forall response fields,
     snd (fetchWithRetry (fetch_calls E (sync_request P (inventory s))) 3)
     = Ret response ->
     response_json E response = Ret (JS.VObj fields) ->
     page (exec (syncWithCloud P E) s)
     = page s ++
       [Toast "Syncing with cloud..." SevInfo;
        if truthy (field "success" fields)
        then Toast "Cloud sync successful!" SevSuccess
        else Toast ("Cloud sync failed: " +:+
                    match field "message" fields with
                    | JS.VStr (String c m) => String c m
                    | v => if truthy v then String_of E v else "Unknown error"
                    end) SevError]).
Proof.
  split.
  - intros Hall.
    pose proof (fetchWithRetry_three_fail _ Hall) as Hrun.
    unfold exec, syncWithCloud. run_m. simpl. change MAX_RETRIES with 3%nat.
    rewrite Hrun. simpl. now rewrite <- app_assoc.
  - intros response fields Hres Hjson.
    unfold exec, syncWithCloud. run_m. simpl. change MAX_RETRIES with 3%nat.
    destruct (fetchWithRetry (fetch_calls E (sync_request P (inventory s))) 3)
      as [trace fetched]. simpl in Hres. subst fetched. simpl.
    rewrite Hjson. simpl.
    destruct (truthy (field "success" fields)); simpl;
      rewrite <- app_assoc; [reflexivity|].
    destruct (field "message" fields) as [| |b|q|[|c m]|elems|fs]; simpl;
      reflexivity.
Qed.

Lemma syncWithCloud_reports_witness :
  page (exec (syncWithCloud roomy_browser (sample_engine (fun _ => down)))
          (stocked [widget 5]))
  = [Toast "Syncing with cloud..." SevInfo;
     Toast "Cloud sync failed: Failed after 3 attempts: Failed to fetch" SevError] /\
  page (exec (syncWithCloud roomy_browser
                (sample_engine
                   (fun _ => FetchResolved
                      {| ok := true; status := 200;
                         body := JS.VObj [("success", JS.VBool false);
                                          ("message", JS.VStr "Try later")] |})))
          (stocked [widget 5]))
  = [Toast "Syncing with cloud..." SevInfo;
     Toast "Cloud sync failed: Try later" SevError].
Proof.
  split.
  - apply (proj1 (syncWithCloud_reports roomy_browser (sample_engine (fun _ => down))
                    (stocked [widget 5]))).
    intros j _. eexists. reflexivity.
  - apply (proj2 (syncWithCloud_reports roomy_browser
                    (sample_engine
                       (fun _ => FetchResolved
                          {| ok := true; status := 200;
                             body := JS.VObj [("success", JS.VBool false);
                                              ("message", JS.VStr "Try later")] |}))
                    (stocked [widget 5]))
             {| ok := true; status := 200;
                body := JS.VObj [("success", JS.VBool false);
                                 ("message", JS.VStr "Try later")] |}
             [("success", JS.VBool false); ("message", JS.VStr "Try later")]);
      reflexivity.
Defined.

(** ** Image downscaling *)

Lemma Math_round_div (a b : Z) :
  0 < b -> Math_round (inject_Z a / inject_Z b) = (2 * a + b) / (2 * b).
Proof.
  intros Hb. destruct b as [|p|p]; try lia.
  unfold Math_round, Qfloor, Qplus, Qdiv, Qmult, Qinv, inject_Z. simpl.
  f_equal; lia.
Qed.

Lemma round_div_bounds (a b : Z) :
  0 < b ->
  2 * b * ((2 * a + b) / (2 * b)) <= 2 * a + b < 2 * b * ((2 * a + b) / (2 * b)) + 2 * b.
Proof.
  intros Hb.
  pose proof (Z.div_mod (2 * a + b) (2 * b) ltac:(lia)).
  pose proof (Z.mod_pos_bound (2 * a + b) (2 * b) ltac:(lia)). lia.
Qed.

(** The canvas size chosen for an image of natural size [width] by [height]
    (both positive).  An image that fits in 800 by 800 keeps its size.  A
    bigger one gets its longer side set to exactly 800 and the other side
    between 0 and 800, with the proportions kept up to rounding (the cross
    product of old and new sides is off by at most half the longer old
    side).  The shorter side comes out as 0 exactly when the image is more
    than 1600 times longer than it is wide, or wider than long. *)
Theorem resize_fits (width height : Z) :
  0 < width -> 0 < height ->
  (width <= 800 /\ height <= 800 -> resize width height = (width, height)) /\
  (800 < width \/ 800 < height ->
   Z.max (fst (resize width height)) (snd (resize width height)) = 800 /\
   0 <= Z.min (fst (resize width height)) (snd (resize width height))) /\
  2 * Z.abs (fst (resize width height) * height - width * snd (resize width height))
  <= Z.max width height /\
  (Z.min (fst (resize width height)) (snd (resize width height)) = 0 <->
   1600 * Z.min width height < Z.max width height).
Proof.
  intros Hw Hh. unfold resize, MAX_IMAGE_DIMENSION.
  destruct (Z.ltb_spec 800 width) as [Hbigw|Hsmallw];
    destruct (Z.ltb_spec 800 height) as [Hbigh|Hsmallh]; simpl orb; cbv iota;
    try (destruct (Z.ltb_spec height width) as [Hwide|Htall]);
    rewrite ?Math_round_div by lia; simpl fst; simpl snd;
    try (pose proof (round_div_bounds (height * 800) width Hw) as Hr;
         set (z := (2 * (height * 800) + width) / (2 * width)) in *);
    try (pose proof (round_div_bounds (width * 800) height Hh) as Hr';
         set (z' := (2 * (width * 800) + height) / (2 * height)) in *);
    repeat split; intros; try lia; try nia.
Qed.

Lemma resize_fits_witness :
  resize 640 480 = (640, 480) /\
  Z.max (fst (resize 4000 3000)) (snd (resize 4000 3000)) = 800 /\
  resize 4000 3000 = (800, 600) /\
  resize 1 2000 = (0, 800).
Proof.
  destruct (resize_fits 640 480) as (Hfit & _); [lia|lia|].
  destruct (resize_fits 4000 3000) as (_ & Hbig & _); [lia|lia|].
  split; [apply Hfit; lia|]. split; [apply Hbig; lia|]. split; reflexivity.
Defined.

(** ** Adding an item, with the image pipeline *)

Lemma trimStart_ws (s : string) :
  (forall a, a ∈ list_ascii_of_string s -> JS.is_ws a = true) ->
  JS.trimStart s = EmptyString.
Proof.
  induction s as [|a s IH]; simpl; [reflexivity|]. intros H.
  rewrite (H a) by apply list_elem_of_here.
  apply IH. intros b Hb. apply H. now apply list_elem_of_further.
Qed.

(** What the add form refuses.  A name of white space only (or empty), or a
    quantity field [parseInt] reads no number from, is ignored without a
    word: the state is exactly as before.  With a proper name and quantity
    but a file the image pipeline rejects (not an image type, unreadable,
    or not decodable), nothing is added or saved either; the page shows and
    hides the loading indicator and then the error with the reason. *)
Theorem submitAddItem_refuses (P : Platform) (s : State)
    (nameValue quantityValue : string) (file : option ImageFile) (newId now : string) :
  ((forall a, a ∈ list_ascii_of_string nameValue -> JS.is_ws a = true) \/
   JS.parseInt quantityValue = None ->
   submitAddItem P nameValue quantityValue file newId now s = (Ret tt, s)) /\
  (forall f reason q,
     file = Some f -> rejection f = Some reason ->
     JS.trim nameValue <> EmptyString -> JS.parseInt quantityValue = Some q ->
     submitAddItem P nameValue quantityValue file newId now s
     = (Ret tt,
        {| inventory := inventory s;
           storageAvailable := storageAvailable s;
           localStorage := localStorage s;
           page := page s ++ [LoadingShown; LoadingHidden;
                              Toast ("Error adding item: " +:+ reason) SevError] |})).
Proof.
  split.
  - intros [Hws|Hnan]; unfold submitAddItem.
    + unfold JS.trim. now rewrite (trimStart_ws _ Hws).
    + rewrite Hnan. now destruct (JS.trim nameValue).
  - intros f reason q -> Hrej Hname Hq. unfold submitAddItem.
    destruct (JS.trim nameValue) as [|c r]; [contradiction|]. rewrite Hq.
    unfold rejection in Hrej. unfold processImage. run_m.
    destruct (JS.starts_with "image/" (file_type f)); simpl in *.
    + destruct (read_fails f); simpl in *.
      * injection Hrej as <-. unfold log. simpl. now rewrite <- !app_assoc.
      * destruct (natural_size f) as [[w h]|]; [discriminate|].
        injection Hrej as <-. unfold log. simpl. now rewrite <- !app_assoc.
    + injection Hrej as <-. unfold log. simpl. now rewrite <- !app_assoc.
Qed.

Lemma submitAddItem_refuses_witness :
  submitAddItem (sample_browser 4096) "   " "5" None "k1" "t" (stocked [widget 5])
  = (Ret tt, stocked [widget 5]) /\
  submitAddItem (sample_browser 4096) "Widget" "5" (Some letter) "k1" "t"
    (stocked [gadget 3])
  = (Ret tt,
     {| inventory := [gadget 3]; storageAvailable := true; localStorage := [];
        page := [LoadingShown; LoadingHidden;
                 Toast "Error adding item: Please select a valid image file" SevError] |}).
Proof.
  split.
  - apply (proj1 (submitAddItem_refuses (sample_browser 4096) (stocked [widget 5])
                    "   " "5" None "k1" "t")).
    left. intros a Ha. simpl in Ha.
    repeat (apply elem_of_cons in Ha as [->|Ha]; [reflexivity|]). inversion Ha.
  - apply (proj2 (submitAddItem_refuses (sample_browser 4096) (stocked [gadget 3])
                    "Widget" "5" (Some letter) "k1" "t")
             letter "Please select a valid image file" 5);
      [reflexivity|reflexivity|discriminate|reflexivity].
Defined.



(** ** Removing and adjusting: what else holds *)

Section MoreCollectionFacts.

Variable P : Platform.

Lemma updateItemQuantity_at s target change pre item post :
  inventory s = pre ++ item :: post ->
  (forall x, x ∈ pre -> id x <> target) ->
  id item = target ->
  inventory (exec (updateItemQuantity P target change) s)
  = pre ++ set_quantity (Z.max 0 (JS.add (quantity item) change)) item :: post.
Proof.
  intros Hinv Hpre Hid.
  assert (findIndex (fun it => String.eqb (id it) target) (inventory s)
          = Some (length pre)) as Hf.
  { rewrite Hinv. apply findIndex_first; [now apply id_eqb_false|].
    now apply String.eqb_eq. }
  assert (inventory s !! length pre = Some item) as Hi.
  { rewrite Hinv. apply list_lookup_middle. reflexivity. }
  destruct (updateItemQuantity_found P s target change _ _ Hf Hi) as (-> & _).
  rewrite Hinv, insert_app_r_alt by lia. now rewrite Nat.sub_diag.
Qed.

Lemma deleteItem_at s target pre item post :
  inventory s = pre ++ item :: post ->
  (forall x, x ∈ pre -> id x <> target) ->
  id item = target ->
  inventory (exec (deleteItem P target) s) = pre ++ post.
Proof.
  intros Hinv Hpre Hid.
  assert (findIndex (fun it => String.eqb (id it) target) (inventory s)
          = Some (length pre)) as Hf.
  { rewrite Hinv. apply findIndex_first; [now apply id_eqb_false|].
    now apply String.eqb_eq. }
  destruct (deleteItem_found P s target _ Hf) as (_ & -> & _).
  now rewrite Hinv, delete_middle.
Qed.

Lemma first_match s target :
  (forall item, item ∈ inventory s -> id item <> target) \/
  exists pre item post,
    inventory s = pre ++ item :: post /\
    (forall x, x ∈ pre -> id x <> target) /\ id item = target.
Proof.
  destruct (findIndex (fun it => String.eqb (id it) target) (inventory s))
    as [index|] eqn:Hf.
  - right. destruct (findIndex_Some _ _ _ Hf) as (pre & item & post & Hinv & _ & Hp & Hpre).
    exists pre, item, post. split; [exact Hinv|]. split.
    + intros x Hx. apply String.eqb_neq. now apply Hpre.
    + now apply String.eqb_eq.
  - left. intros item Hin. apply String.eqb_neq.
    now apply (proj1 (findIndex_None _ _) Hf).
Qed.

End MoreCollectionFacts.

Lemma filter_none {A} (Q : A -> Prop) `{forall x, Decision (Q x)} (l : list A) :
  (forall x, x ∈ l -> ~ Q x) -> filter Q l = [].
Proof.
  induction l as [|x l IH]; intros Hl; [reflexivity|].
  rewrite filter_cons. destruct (decide (Q x)) as [Hq|_].
  - exfalso. apply (Hl x); [apply list_elem_of_here|exact Hq].
  - apply IH. intros y Hy. apply Hl. now apply list_elem_of_further.
Qed.

(** Removing an id never disturbs the items with another id: they are the
    same, in the same order, whether or not the id was present.  Of the
    items with the id, exactly one is removed if there is any, so with
    duplicate ids the others stay; when the ids of the collection are
    pairwise distinct the id is gone afterwards, and removing it a second
    time changes nothing at all. *)
Theorem deleteItem_one_at_a_time (P : Platform) (s : State) (target : string) :
  filter (fun item => id item <> target) (inventory (exec (deleteItem P target) s))
  = filter (fun item => id item <> target) (inventory s) /\
  length (filter (fun item => id item = target)
            (inventory (exec (deleteItem P target) s)))
  = Nat.pred (length (filter (fun item => id item = target) (inventory s))) /\
  (NoDup (map id (inventory s)) ->
   (forall item, item ∈ inventory (exec (deleteItem P target) s) -> id item <> target) /\
   exec (deleteItem P target) (exec (deleteItem P target) s)
   = exec (deleteItem P target) s).
Proof.
  destruct (first_match s target) as [Habs|(pre & item & post & Hinv & Hpre & Hid)].
  - assert (exec (deleteItem P target) s = s) as ->.
    { unfold exec. rewrite deleteItem_absent; [reflexivity|].
      apply findIndex_None. now apply id_eqb_false. }
    split; [reflexivity|]. split.
    + rewrite filter_none; [reflexivity|].
      intros x Hx Heq. now apply (Habs x Hx).
    + intros _. split; [exact Habs|].
      unfold exec. rewrite deleteItem_absent; [reflexivity|].
      apply findIndex_None. now apply id_eqb_false.
  - rewrite (deleteItem_at P s target pre item post Hinv Hpre Hid), Hinv.
    rewrite !filter_app, !filter_cons.
    destruct (decide (id item <> target)) as [Hne|_]; [contradiction|].
    destruct (decide (id item = target)) as [_|Hne]; [|contradiction].
    split; [reflexivity|]. split.
    + rewrite !length_app. simpl.
      rewrite (filter_none _ pre); [simpl; lia|].
      intros x Hx Heq. now apply (Hpre x Hx).
    + intros Hnodup.
      assert (forall x, x ∈ pre ++ post -> id x <> target) as Hgone.
      { rewrite map_app in Hnodup. simpl in Hnodup.
        apply NoDup_app in Hnodup as (_ & Hdisj & Hpost).
        apply NoDup_cons in Hpost as [Hnotin _].
        intros x Hx. apply elem_of_app in Hx as [Hx|Hx]; [now apply Hpre|].
        intros Heq. apply Hnotin. rewrite Hid, <- Heq.
        apply list_elem_of_In, in_map. now apply list_elem_of_In. }
      split; [exact Hgone|].
      unfold exec at 1. rewrite deleteItem_absent; [reflexivity|].
      apply findIndex_None. apply id_eqb_false.
      now rewrite (deleteItem_at P s target pre item post Hinv Hpre Hid).
Qed.

Lemma deleteItem_one_at_a_time_witness :
  inventory (exec (deleteItem roomy_browser "k1") (stocked [widget 5; gadget 3; widget 9]))
  = [gadget 3; widget 9] /\
  forall item,
    item ∈ inventory (exec (deleteItem roomy_browser "k1") (stocked [widget 5; gadget 3])) ->
    id item <> "k1".
Proof.
  split; [reflexivity|].
  apply (deleteItem_one_at_a_time roomy_browser (stocked [widget 5; gadget 3]) "k1").
  simpl. apply NoDup_cons. split.
  - intros H. apply list_elem_of_singleton in H. discriminate.
  - apply NoDup_singleton.
Defined.

(** Two quantity changes in a row on a present id add and clamp one after
    the other, exactly so while the sums stay within 2^53 in magnitude.  So
    for an item of non-negative quantity, adding an amount and taking it
    off again gives the collection back as it was, and taking it off first
    and adding it back leaves the larger of the old quantity and the
    amount, as long as the quantity plus the amount is at most 2^53.  The
    bound is needed: on a quantity of 2^53, adding one and taking one off
    leaves 2^53 - 1, since 2^53 + 1 rounds to 2^53. *)
Theorem updateItemQuantity_twice (P : Platform) (s : State) (target : string)
    (a b : Z) (pre post : list Item) (item : Item) :
  inventory s = pre ++ item :: post ->
  (forall x, x ∈ pre -> id x <> target) ->
  id item = target ->
  (Z.abs (quantity item + a) <= 2 ^ 53 ->
   Z.abs (Z.max 0 (quantity item + a) + b) <= 2 ^ 53 ->
   inventory (exec (updateItemQuantity P target b)
                (exec (updateItemQuantity P target a) s))
   = pre ++ {| id := id item; name := name item;
               quantity := Z.max 0 (Z.max 0 (quantity item + a) + b);
               image := image item; createdAt := createdAt item |} :: post) /\
  (0 <= quantity item -> 0 <= a -> quantity item + a <= 2 ^ 53 ->
   inventory (exec (updateItemQuantity P target (- a))
                (exec (updateItemQuantity P target a) s))
   = inventory s /\
   inventory (exec (updateItemQuantity P target a)
                (exec (updateItemQuantity P target (- a)) s))
   = pre ++ {| id := id item; name := name item;
               quantity := Z.max (quantity item) a;
               image := image item; createdAt := createdAt item |} :: post) /\
  (quantity item = 2 ^ 53 ->
   inventory (exec (updateItemQuantity P target (-1))
                (exec (updateItemQuantity P target 1) s))
   = pre ++ {| id := id item; name := name item;
               quantity := 2 ^ 53 - 1;
               image := image item; createdAt := createdAt item |} :: post).
Proof.
  intros Hinv Hpre Hid.
  assert (forall a b,
            inventory (exec (updateItemQuantity P target b)
                         (exec (updateItemQuantity P target a) s))
            = pre ++ {| id := id item; name := name item;
                        quantity := Z.max 0 (JS.add (Z.max 0 (JS.add (quantity item) a)) b);
                        image := image item; createdAt := createdAt item |} :: post)
    as Htwice.
  { intros a' b'.
    rewrite (updateItemQuantity_at P _ target b' pre
               (set_quantity (Z.max 0 (JS.add (quantity item) a')) item) post).
    - reflexivity.
    - now apply updateItemQuantity_at.
    - exact Hpre.
    - exact Hid. }
  split; [|split].
  - intros H1 H2. rewrite Htwice.
    rewrite (add_exact (quantity item) a) by exact H1.
    now rewrite add_exact by exact H2.
  - intros Hq Ha Hbound. rewrite !Htwice, Hinv. split.
    + do 2 f_equal. destruct item as [i n q img c]. simpl in *. f_equal.
      rewrite (add_exact q a) by lia.
      rewrite add_exact by lia. lia.
    + do 3 f_equal.
      rewrite (add_exact (quantity item) (- a)) by lia.
      rewrite add_exact by lia. lia.
  - intros Hq. rewrite Htwice, Hq. reflexivity.
Qed.

Lemma updateItemQuantity_twice_witness :
  inventory (exec (updateItemQuantity roomy_browser "k1" (-1))
               (exec (updateItemQuantity roomy_browser "k1" 1)
                  (stocked [gadget 3; widget 0])))
  = [gadget 3; widget 0] /\
  inventory (exec (updateItemQuantity roomy_browser "k1" 1)
               (exec (updateItemQuantity roomy_browser "k1" (-1))
                  (stocked [gadget 3; widget 0])))
  = [gadget 3; widget 1] /\
  inventory (exec (updateItemQuantity roomy_browser "k1" (-1))
               (exec (updateItemQuantity roomy_browser "k1" 1)
                  (stocked [widget (2 ^ 53)])))
  = [widget (2 ^ 53 - 1)].
Proof.
  destruct (updateItemQuantity_twice roomy_browser (stocked [gadget 3; widget 0]) "k1"
              1 (-1) [gadget 3] [] (widget 0)) as (_ & Hround & _).
  - reflexivity.
  - intros x Hx. apply list_elem_of_singleton in Hx as ->. discriminate.
  - reflexivity.
  - destruct Hround as [Hback Hforth]; [simpl; lia|lia|simpl; lia|].
    split; [exact Hback|]. split; [exact Hforth|].
    destruct (updateItemQuantity_twice roomy_browser (stocked [widget (2 ^ 53)]) "k1"
                1 (-1) [] [] (widget (2 ^ 53))) as (_ & _ & Hedge).
    + reflexivity.
    + intros x Hx. inversion Hx.
    + reflexivity.
    + apply Hedge. reflexivity.
Defined.

(** ** Import and export *)

(** Choosing an import file never changes the collection, the store or the
    availability flag, and never throws; the page gets at most one request.
    Without a file nothing happens; a failed read shows 'Error reading
    file'; text that does not parse shows the parser's message after 'Error
    importing inventory data: '; and an array is not merged yet: the page is
    asked to confirm, with the number of its elements in the question and
    the elements kept for the confirmation. *)
Theorem importInventory_contained (P : Platform) (s : State) (file : option FileRead) :
  exists requests,
    importInventory P file s
    = (Ret tt,
       {| inventory := inventory s; storageAvailable := storageAvailable s;
          localStorage := localStorage s; page := page s ++ requests |}) /\
    (length requests <= 1)%nat /\
    (file = None -> requests = []) /\
    (file = Some ReadFailed -> requests = [Toast "Error reading file" SevError]) /\
    (forall text e,
       file = Some (ReadLoaded text) -> JSON_parse P text = Throw e ->
       requests = [Toast ("Error importing inventory data: " +:+ JS.err_message e)
                     SevError]) /\
    (forall text elems,
       file = Some (ReadLoaded text) -> JSON_parse P text = Ret (JS.VArr elems) ->
       requests = [ConfirmModal "Import Inventory"
                     ("This will add " +:+ JS.show_nat (length elems) +:+
                      " items to your inventory. Continue?")
                     (CbImportItems elems)]).
Proof.
  destruct file as [[text|]|]; simpl.
  - unfold importInventory_onload. run_m.
    destruct (JSON_parse P text) as [v|e] eqn:Hparse; simpl;
      [destruct (JS.Array_isArray v) eqn:Harr; simpl|];
      eexists; (split; [reflexivity|]); (split; [simpl; lia|]);
      repeat split; try discriminate;
      intros ? ? [= <-] Hx; rewrite Hparse in Hx; try discriminate;
      injection Hx as ->; simpl in *; try reflexivity; discriminate.
  - eexists. split; [reflexivity|]. split; [simpl; lia|].
    repeat split; try discriminate; reflexivity.
  - exists []. rewrite app_nil_r, state_eta. split; [reflexivity|].
    split; [simpl; lia|]. repeat split; discriminate.
Qed.

Lemma before_T_prefix (date rest : string) :
  (forall a, a ∈ list_ascii_of_string date -> a <> "T"%char) ->
  before_T (date +:+ String "T" rest) = date.
Proof.
  induction date as [|a date IH]; simpl; intros H; [reflexivity|].
  destruct (Ascii.eqb_spec a "T") as [->|_].
  - exfalso. apply (H "T"%char); [apply list_elem_of_here|reflexivity].
  - f_equal. apply IH. intros b Hb. apply H. now apply list_elem_of_further.
Qed.

(** Exporting never throws and never changes the collection or the store.
    An empty collection yields no file, only the warning 'No inventory data
    to export'.  Otherwise exactly one file is offered, a data URI of the
    indented serialisation of the whole collection, named
    'inventory_export_', the date part of the current time (what precedes
    its 'T'), '.json', and the success message is shown. *)
Theorem exportInventory_file (E : Engine) (s : State)
    (date rest : string) :
  (forall a, a ∈ list_ascii_of_string date -> a <> "T"%char) ->
  exportInventory E (date +:+ String "T" rest) s
  = match inventory s with
    | [] =>
        (Ret None,
         {| inventory := inventory s; storageAvailable := storageAvailable s;
            localStorage := localStorage s;
            page := page s ++ [Toast "No inventory data to export" SevWarning] |})
    | _ :: _ =>
        (Ret (Some {| href := "data:application/json;charset=utf-8," +:+
                              encodeURIComponent E
                                (JSON_stringify_pretty E (inventory s));
                      download := "inventory_export_" +:+ date +:+ ".json" |}),
         {| inventory := inventory s; storageAvailable := storageAvailable s;
            localStorage := localStorage s;
            page := page s ++ [Toast "Inventory exported successfully" SevSuccess] |})
    end.
Proof.
  intros Hdate. unfold exportInventory. run_m.
  destruct (inventory s) as [|item items] eqn:Hinv; simpl.
  - unfold log. now rewrite Hinv.
  - rewrite (before_T_prefix date rest Hdate). unfold log. now rewrite Hinv.
Qed.

Lemma exportInventory_file_witness :
  result (exportInventory (sample_engine flaky) "2024-05-06T07:08:09.000Z")
    (stocked [])
  = Ret None /\
  result (exportInventory (sample_engine flaky) "2024-05-06T07:08:09.000Z")
    (stocked [widget 5])
  = Ret (Some {| href := "data:application/json;charset=utf-8," +:+
                         json_items [widget 5];
                 download := "inventory_export_2024-05-06.json" |}).
Proof.
  assert (forall a, a ∈ list_ascii_of_string "2024-05-06" -> a <> "T"%char) as Hdate.
  { intros a Ha. simpl in Ha.
    repeat (apply elem_of_cons in Ha as [->|Ha]; [discriminate|]). inversion Ha. }
  unfold result.
  change "2024-05-06T07:08:09.000Z" with ("2024-05-06" +:+ String "T" "07:08:09.000Z").
  rewrite (exportInventory_file (sample_engine flaky) (stocked [])
             "2024-05-06" "07:08:09.000Z" Hdate).
  rewrite (exportInventory_file (sample_engine flaky) (stocked [widget 5])
             "2024-05-06" "07:08:09.000Z" Hdate).
  split; reflexivity.
Defined.

(** ** Start-up *)

Lemma checkStorageAvailability_run (P : Platform) (s : State) :
  checkStorageAvailability P s
  = match setItem_fault P (localStorage s) "__storage_test__" "__storage_test__" with
    | Some _ => (Ret false, s)
    | None => (Ret true,
               set_localStorage (store_remove "__storage_test__" (localStorage s)) s)
    end.
Proof.
  unfold checkStorageAvailability, localStorage_setItem, localStorage_removeItem.
  run_m.
  destruct (setItem_fault P (localStorage s) "__storage_test__" "__storage_test__");
    simpl; [reflexivity|].
  now rewrite store_remove_put.
Qed.

Lemma storage_key_not_test_key : STORAGE_KEY <> "__storage_test__".
Proof. discriminate. Qed.

(** Start-up when nothing can be loaded; none of these cases throws or
    touches the collection, and each ends by rendering it.  If the store
    refuses the probe, the flag is cleared, the store is left alone and the
    yellow status says that data will not be saved.  If the probe passes but
    there is no blob under the storage key (or an empty one), the flag is
    set and the green default status is shown.  If the blob does not parse,
    the flag stays set, the status reads 'Error loading data', and the blob
    stays in the store. *)
Theorem loadInventory_nothing_to_load (P : Platform) (s : State) :
  (forall e,
     setItem_fault P (localStorage s) "__storage_test__" "__storage_test__" = Some e ->
     loadInventory P s
     = (Ret LoadDone,
        {| inventory := inventory s; storageAvailable := false;
           localStorage := localStorage s;
           page := page s ++
                   [StorageStatus yellow
                      "Storage unavailable - data will not be saved between sessions";
                    InventoryShown (inventory s)] |})) /\
  (setItem_fault P (localStorage s) "__storage_test__" "__storage_test__" = None ->
   (store_get STORAGE_KEY (localStorage s) = None \/
    store_get STORAGE_KEY (localStorage s) = Some EmptyString ->
    loadInventory P s
    = (Ret LoadDone,
       {| inventory := inventory s; storageAvailable := true;
          localStorage := store_remove "__storage_test__" (localStorage s);
          page := page s ++
                  [StorageStatus green "Data will be saved automatically";
                   InventoryShown (inventory s)] |})) /\
   (forall c text e,
      store_get STORAGE_KEY (localStorage s) = Some (String c text) ->
      JSON_parse P (String c text) = Throw e ->
      loadInventory P s
      = (Ret LoadDone,
         {| inventory := inventory s; storageAvailable := true;
            localStorage := store_remove "__storage_test__" (localStorage s);
            page := page s ++
                    [StorageStatus yellow "Error loading data";
                     InventoryShown (inventory s)] |}) /\
      store_get STORAGE_KEY (store_remove "__storage_test__" (localStorage s))
      = Some (String c text))).
Proof.
  split; [|intros Hok; split].
  - intros e Hf. unfold loadInventory. cbv [mbind M_bind bind].
    rewrite checkStorageAvailability_run, Hf. run_m. simpl.
    unfold log. simpl. now rewrite <- app_assoc.
  - intros Hblob. unfold loadInventory. cbv [mbind M_bind bind].
    rewrite checkStorageAvailability_run, Hok. run_m. simpl.
    rewrite (store_get_remove_ne _ _ _ storage_key_not_test_key).
    destruct Hblob as [->| ->]; simpl; unfold log; simpl; now rewrite <- app_assoc.
  - intros c text e Hblob Hparse.
    rewrite (store_get_remove_ne _ _ _ storage_key_not_test_key).
    split; [|exact Hblob].
    unfold loadInventory. cbv [mbind M_bind bind].
    rewrite checkStorageAvailability_run, Hok. run_m. simpl.
    rewrite (store_get_remove_ne _ _ _ storage_key_not_test_key), Hblob. simpl.
    rewrite Hparse. simpl. unfold log. simpl. now rewrite <- app_assoc.
Qed.

Lemma loadInventory_nothing_to_load_witness :
  loadInventory (sample_browser 4) (initial [("stockInventory", "[]")])
  = (Ret LoadDone,
     {| inventory := []; storageAvailable := false;
        localStorage := [("stockInventory", "[]")];
        page := [StorageStatus yellow
                   "Storage unavailable - data will not be saved between sessions";
                 InventoryShown []] |}) /\
  loadInventory (sample_browser 4096) (initial [("stockInventory", "[{oops")])
  = (Ret LoadDone,
     {| inventory := []; storageAvailable := true;
        localStorage := [("stockInventory", "[{oops")];
        page := [StorageStatus yellow "Error loading data"; InventoryShown []] |}).
Proof.
  split.
  - apply (proj1 (loadInventory_nothing_to_load (sample_browser 4)
                    (initial [("stockInventory", "[]")])) quota_exceeded).
    reflexivity.
  - apply (proj2 (proj2 (loadInventory_nothing_to_load (sample_browser 4096)
                           (initial [("stockInventory", "[{oops")])) eq_refl)
             "["%char "{oops"
             {| JS.err_name := "SyntaxError"; JS.err_message := "Unexpected token";
                JS.err_code := None |}); reflexivity.
Defined.

(** Save, then start again.  If a save is taken by the store, and on the
    next start the probe passes and [JSON.parse] reads the blob back as the
    items that were serialised, then [loadInventory], run from the fresh
    state of a new session over that store, ends normally with the
    collection that was saved and the availability flag set, and renders
    it. *)
Theorem loadInventory_restores (P : Platform) (s : State) (parsed : JS.Value) :
  storageAvailable s = true ->
  setItem_fault P (localStorage s) STORAGE_KEY (JSON_stringify P (inventory s)) = None ->
  setItem_fault P (localStorage (exec (saveInventory P) s))
    "__storage_test__" "__storage_test__" = None ->
  JSON_stringify P (inventory s) <> EmptyString ->
  JSON_parse P (JSON_stringify P (inventory s)) = Ret parsed ->
  as_items parsed = Some (inventory s) ->
  result (loadInventory P) (initial (localStorage (exec (saveInventory P) s)))
  = Ret LoadDone /\
  inventory (exec (loadInventory P) (initial (localStorage (exec (saveInventory P) s))))
  = inventory s /\
  storageAvailable
    (exec (loadInventory P) (initial (localStorage (exec (saveInventory P) s))))
  = true /\
  last (page (exec (loadInventory P)
                (initial (localStorage (exec (saveInventory P) s)))))
  = Some (InventoryShown (inventory s)).
Proof.
  intros Ha Hf Hprobe Hne Hparse Hitems.
  destruct (saveInventory_blob P s Ha Hf) as (_ & Hget).
  set (ls := localStorage (exec (saveInventory P) s)) in *.
  unfold result, exec. unfold loadInventory. cbv [mbind M_bind bind].
  rewrite checkStorageAvailability_run. simpl localStorage. rewrite Hprobe.
  run_m. simpl.
  rewrite (store_get_remove_ne _ _ _ storage_key_not_test_key), Hget.
  destruct (JSON_stringify P (inventory s)) as [|c text] eqn:Htext; [contradiction|].
  simpl. rewrite Hparse. simpl. rewrite Hitems. simpl. auto.
Qed.

Lemma loadInventory_restores_witness :
  inventory
    (exec (loadInventory (recalling_browser 4096 [widget 5; gadget 3]))
       (initial (localStorage
                   (exec (saveInventory (recalling_browser 4096 [widget 5; gadget 3]))
                      (stocked [widget 5; gadget 3])))))
  = [widget 5; gadget 3].
Proof.
  apply (loadInventory_restores (recalling_browser 4096 [widget 5; gadget 3])
           (stocked [widget 5; gadget 3])
           (JS.VArr (map value_of_item [widget 5; gadget 3])));
    try reflexivity.
  discriminate.
Defined.

Lemma run_nonneg_when_adds_nonneg_witness :
  nonneg (inventory
            (exec (run roomy_browser
                     [OpAdd "Widget" "5" (Ret None) "k 1" "2024-01-01T00:00:00.000Z";
                      OpAdjust "k 1" (-7);
                      OpAdjust "k 1" 2])
               (ready []))).
Proof.
  apply (run_nonneg_when_adds_nonneg roomy_browser
           [OpAdd "Widget" "5" (Ret None) "k 1" "2024-01-01T00:00:00.000Z";
            OpAdjust "k 1" (-7);
            OpAdjust "k 1" 2]
           (ready [])).
  - apply Forall_cons. split; [intros q Hq; vm_compute in Hq; injection Hq as <-; lia|].
    apply Forall_cons. split; [exact I|].
    apply Forall_cons. split; [exact I|constructor].
  - constructor.
Defined.
